(** * uniz-notification-service: the worker of [src/index.ts]

    A shallow embedding of the notification worker: the PDF utilities
    ([getExecutablePath], [baseLaunchBrowser], [generateResultPdf],
    [generateAttendancePdf]), the mail template and the queue handler.

    - JavaScript numbers are IEEE 754 binary64 values: Rocq's primitive
      [float], with [Number.prototype.toFixed] written out on the exact
      value of the float.
    - JavaScript strings are [string]; the model covers the ASCII range
      ([toUpperCase] leaves every other character as it is).
    - Calls that leave the process (puppeteer, nodemailer, console, timers)
      are run against an environment that answers each call from the
      history of calls so far; every call is recorded in a trace. *)

From Stdlib Require Import ZArith Lia Bool List String Ascii Floats DecimalString.
Import ListNotations.

Local Open Scope list_scope.
Local Open Scope string_scope.

(* ================================================================= *)
(** ** Numbers *)

(** A JavaScript Number. *)
Definition number : Set := float.

(** Decimal digits of a non-negative integer ("0" for zero). *)
Definition digits (n : Z) : string :=
  NilZero.string_of_uint (N.to_uint (Z.to_N n)).

Fixpoint repeat0 (k : nat) : string :=
  match k with
  | O => ""
  | S k' => String "0" (repeat0 k')
  end.

(** Drops the zeros at the end of a digit string. *)
Fixpoint strip_zeros (s : string) : string :=
  match s with
  | "" => ""
  | String c s' =>
      match strip_zeros s' with
      | "" => if Ascii.eqb c "0" then "" else String c ""
      | t => String c t
      end
  end.

(** The integers that round to the finite float [m * 2^e] (round to nearest,
    ties to even), for [e >= 2]: the closed or open interval around it. *)
Definition rounds_to (m : positive) (e : Z) (v : Z) : bool :=
  let x := (Z.pos m * 2 ^ e)%Z in
  let up := (2 ^ (e - 1))%Z in
  let down := (if (Z.pos m =? 2 ^ 52)%Z then 2 ^ (e - 2) else 2 ^ (e - 1))%Z in
  if Z.even (Z.pos m)
  then ((x - down <=? v) && (v <=? x + up))%Z
  else ((x - down <? v) && (v <? x + up))%Z.

(** Number::toString of a finite [x = m * 2^e >= 10^21], with [k] significant
    digits when some decimal of [k] digits rounds to [x]. *)
Definition exponential_with (m : positive) (e : Z) (k : nat) : option string :=
  let x := (Z.pos m * 2 ^ e)%Z in
  let nd := String.length (digits x) in
  let p := (10 ^ Z.of_nat (nd - k))%Z in
  let lo := (x / p * p)%Z in
  let hi := (lo + p)%Z in
  let pick :=
    match rounds_to m e lo, rounds_to m e hi with
    | true, true =>
        if (x - lo <? hi - x)%Z then Some lo
        else if (hi - x <? x - lo)%Z then Some hi
        else if Z.even (lo / p) then Some lo else Some hi
    | true, false => Some lo
    | false, true => Some hi
    | false, false => None
    end in
  match pick with
  | None => None
  | Some v =>
      let ds := digits v in
      let ex := digits (Z.of_nat (String.length ds) - 1) in
      match strip_zeros ds with
      | "" => None
      | String d "" => Some (String d ("e+" ++ ex))
      | String d rest => Some (String d ("." ++ rest ++ "e+" ++ ex))
      end
  end.

Fixpoint exponential_from (m : positive) (e : Z) (k fuel : nat) : string :=
  match fuel with
  | O => digits (Z.pos m * 2 ^ e)
  | S fuel' =>
      match exponential_with m e k with
      | Some s => s
      | None => exponential_from m e (S k) fuel'
      end
  end.

(** [x.toFixed(f)] for [0 <= f <= 100] (ECMA-262, Number.prototype.toFixed):
    NaN and the infinities print as such; a value of magnitude at least
    10^21 prints as Number::toString does; otherwise the integer [n] nearest
    to [x * 10^f] (the larger one on a tie) is printed with [f] decimals. *)
Definition toFixed (x : number) (f : nat) : string :=
  match Prim2SF x with
  | S754_nan => "NaN"
  | S754_infinity s => if s then "-Infinity" else "Infinity"
  | S754_zero _ =>
      match f with
      | O => "0"
      | _ => "0." ++ repeat0 f
      end
  | S754_finite s m e =>
      let sign := if s then "-" else "" in
      let scale := (10 ^ Z.of_nat f)%Z in
      if ((0 <=? e) && (10 ^ 21 <=? Z.pos m * 2 ^ e))%Z
      then sign ++ exponential_from m e 1 17
      else
        let n :=
          if (0 <=? e)%Z then (Z.pos m * 2 ^ e * scale)%Z
          else ((2 * Z.pos m * scale + 2 ^ (- e)) / 2 ^ (- e + 1))%Z in
        let ds := digits n in
        let ds := repeat0 (S f - String.length ds) ++ ds in
        let k := String.length ds in
        match f with
        | O => sign ++ ds
        | _ => sign ++ substring 0 (k - f) ds ++ "." ++ substring (k - f) f ds
        end
  end.


(* ================================================================= *)
(** ** Strings *)

(** The double quote character. *)
Definition dq : string := String (ascii_of_nat 34) "".

Definition is_lower (c : ascii) : bool :=
  (97 <=? nat_of_ascii c)%nat && (nat_of_ascii c <=? 122)%nat.

Definition upper_char (c : ascii) : ascii :=
  if is_lower c then ascii_of_nat (nat_of_ascii c - 32) else c.

(** The text is ASCII: every character has a code below 128. *)
Fixpoint isAscii (s : string) : bool :=
  match s with
  | "" => true
  | String c s' => (nat_of_ascii c <? 128)%nat && isAscii s'
  end.

(** [s.toUpperCase()] on ASCII text, where the letters a-z are the only
    characters with an upper-case form of their own. The strings of this
    development are ASCII text; on text outside ASCII the built-in also
    maps letters that are left as they are here. *)
Fixpoint toUpperCase (s : string) : string :=
  match s with
  | "" => ""
  | String c s' => String (upper_char c) (toUpperCase s')
  end.

(** [s.includes(needle)]. *)
Fixpoint includes (s needle : string) : bool :=
  prefix needle s ||
  match s with
  | "" => false
  | String _ s' => includes s' needle
  end.

Fixpoint skip (n : nat) (s : string) : string :=
  match n, s with
  | S n', String _ s' => skip n' s'
  | _, _ => s
  end.

(** [s.replace(pat, rep)] for a string pattern: the first occurrence only. *)
Fixpoint replace (s pat rep : string) : string :=
  if prefix pat s then rep ++ skip (String.length pat) s
  else match s with
       | "" => ""
       | String c s' => String c (replace s' pat rep)
       end.

(** A value interpolated in a template literal: [undefined] prints as such. *)
Definition interpolate (v : option string) : string :=
  match v with
  | Some s => s
  | None => "undefined"
  end.

(** Truthiness of an optional string: present and not empty. *)
Definition truthy (v : option string) : bool :=
  match v with
  | Some (String _ _) => true
  | _ => false
  end.

(* ================================================================= *)
(** ** Regular expressions

    The fragment the three patterns of [generateResultPdf] are written in,
    matched as ECMAScript does: alternatives in priority order with
    backtracking, greedy quantifiers, the leftmost start position first. *)

Inductive regex : Type :=
| Empty                                 (* the empty pattern *)
| Bos                                   (* ^ *)
| Chars (cls : ascii -> bool)           (* one character of a class *)
| Seq (r1 r2 : regex)                   (* r1 r2 *)
| Optional (r : regex)                  (* r? and (?:r)? *)
| Plus (cls : ascii -> bool)            (* [class]+ *)
| Group (r : regex).                    (* (r), a capture *)

(** Character classes. Under the [i] flag a character is compared after
    canonicalisation to upper case. *)
Definition one_of (set : string) (c : ascii) : bool :=
  existsb (Ascii.eqb c) (list_ascii_of_string set).

Definition one_of_i (set : string) (c : ascii) : bool :=
  one_of (toUpperCase set) (upper_char c).

Definition range (lo hi : ascii) (c : ascii) : bool :=
  (nat_of_ascii lo <=? nat_of_ascii c)%nat && (nat_of_ascii c <=? nat_of_ascii hi)%nat.

Definition letter (c : ascii) : bool := range "a" "z" c || range "A" "Z" c.

(** A literal text under the [i] flag. *)
Fixpoint lit_i (s : string) : regex :=
  match s with
  | "" => Empty
  | String c "" => Chars (one_of_i (String c ""))
  | String c s' => Seq (Chars (one_of_i (String c ""))) (lit_i s')
  end.

Section Exec.
Context {R : Type}.

(** The continuation gets the position reached, the rest of the input and
    the captures closed so far (in the order the groups close). *)
Definition cont : Type := nat -> string -> list string -> option R.

Fixpoint plus_more (cls : ascii -> bool) (i : nat) (s : string)
    (caps : list string) (k : cont) : option R :=
  match s with
  | String c s' =>
      if cls c then
        match plus_more cls (S i) s' caps k with
        | Some x => Some x
        | None => k i s caps
        end
      else k i s caps
  | "" => k i s caps
  end.

Fixpoint exec (r : regex) (i : nat) (s : string) (caps : list string)
    (k : cont) : option R :=
  match r with
  | Empty => k i s caps
  | Bos => match i with O => k i s caps | S _ => None end
  | Chars cls =>
      match s with
      | String c s' => if cls c then k (S i) s' caps else None
      | "" => None
      end
  | Seq r1 r2 => exec r1 i s caps (fun i' s' caps' => exec r2 i' s' caps' k)
  | Optional r' =>
      match exec r' i s caps k with
      | Some x => Some x
      | None => k i s caps
      end
  | Plus cls =>
      match s with
      | String c s' => if cls c then plus_more cls (S i) s' caps k else None
      | "" => None
      end
  | Group r' =>
      exec r' i s caps
        (fun i' s' caps' => k i' s' (caps' ++ [substring 0 (i' - i) s])%list)
  end.
End Exec.

(** The match of [r] at position [i], where [s] is the input from [i] on. *)
Definition match_at (r : regex) (i : nat) (s : string) : option (list string) :=
  exec r i s [] (fun _ _ caps => Some caps).

(** [s.match(r)] for a pattern without the [g] flag: the captures of the
    match at the first position that has one. *)
Fixpoint match_from (r : regex) (i : nat) (s : string) : option (list string) :=
  match match_at r i s with
  | Some caps => Some caps
  | None =>
      match s with
      | "" => None
      | String _ s' => match_from r (S i) s'
      end
  end.

Definition regex_match (s : string) (r : regex) : option (list string) :=
  match_from r 0 s.

(** [m[n]] for a capture group [n >= 1] of a match. *)
Definition group (n : nat) (m : list string) : string := nth (n - 1) m "".

(** *** What a pattern matches

    The words a pattern matches at position [i] of the input, with the
    captures of its groups: the meaning of the pattern, free of the order in
    which the matcher tries the alternatives. *)

Fixpoint all_chars (cls : ascii -> bool) (w : string) : bool :=
  match w with
  | "" => true
  | String c w' => cls c && all_chars cls w'
  end.

Inductive matches : regex -> nat -> string -> list string -> Prop :=
| matches_empty (i : nat) : matches Empty i "" []
| matches_bos : matches Bos 0 "" []
| matches_chars (cls : ascii -> bool) (i : nat) (c : ascii) :
    cls c = true -> matches (Chars cls) i (String c "") []
| matches_seq (r1 r2 : regex) (i : nat) (w1 w2 : string) (c1 c2 : list string) :
    matches r1 i w1 c1 -> matches r2 (i + String.length w1) w2 c2 ->
    matches (Seq r1 r2) i (w1 ++ w2) (c1 ++ c2)%list
| matches_optional (r : regex) (i : nat) (w : string) (c : list string) :
    matches r i w c -> matches (Optional r) i w c
| matches_skipped (r : regex) (i : nat) : matches (Optional r) i "" []
| matches_plus (cls : ascii -> bool) (i : nat) (c : ascii) (w : string) :
    cls c = true -> all_chars cls w = true -> matches (Plus cls) i (String c w) []
| matches_group (r : regex) (i : nat) (w : string) (c : list string) :
    matches r i w c -> matches (Group r) i w (c ++ [w])%list.

(** The pattern [r] matches in [s] at position [i], with captures [caps]. *)
Definition occurs (r : regex) (s : string) (i : nat) (caps : list string) : Prop :=
  exists pre w post,
    s = pre ++ w ++ post /\ String.length pre = i /\ matches r i w caps.

(** The pattern is found somewhere in [s]. *)
Definition found (r : regex) (s : string) : Prop :=
  exists i caps, occurs r s i caps.

(** A match at the leftmost position that has one. *)
Definition leftmost (r : regex) (s : string) (i : nat) (caps : list string) : Prop :=
  occurs r s i caps /\ forall j caps', j < i -> ~ occurs r s j caps'.

(** All matches of [r] that start at one place have the same captures. *)
Definition deterministic (r : regex) : Prop :=
  forall i w1 s1 c1 w2 s2 c2,
    w1 ++ s1 = w2 ++ s2 -> matches r i w1 c1 -> matches r i w2 c2 -> c1 = c2.

(** /([EP])[-_ ]?([1-4])/i *)
Definition year_re : regex :=
  Seq (Group (Chars (one_of_i "EP")))
      (Seq (Optional (Chars (one_of_i "-_ "))) (Group (Chars (range "1" "4")))).

(** /S(?:em(?:ester)?)?[-_ ]?([1-3])/i *)
Definition sem_re : regex :=
  Seq (lit_i "S")
      (Seq (Optional (Seq (lit_i "em") (Optional (lit_i "ester"))))
           (Seq (Optional (Chars (one_of_i "-_ "))) (Group (Chars (range "1" "3"))))).

(** /^[a-zA-Z]+[-_ ]?([1-4])/ *)
Definition code_re : regex :=
  Seq Bos
      (Seq (Plus letter)
           (Seq (Optional (Chars (one_of "-_ "))) (Group (Chars (range "1" "4"))))).

(* ================================================================= *)
(** ** Job payloads *)

(** [g.subject] and [r.subject]; [credits] holds [Number(subject.credits)]. *)
Record Subject : Type := {
  subject_name : string;
  subject_code : option string;
  subject_credits : number
}.

(** An entry of [data.grades]; [grade] holds [Number(g.grade)], the value
    the comparisons of [getGradeLetter] convert [g.grade] to as well. *)
Record Grade : Type := {
  grade_subject : Subject;
  grade : number
}.

(** An entry of [data.records]; the two counts are numbers, as the loop
    of lines 234-237 adds them. *)
Record AttendanceRecord : Type := {
  record_subject : Subject;
  attendedClasses : number;
  totalClasses : number
}.

(** [job.data]. *)
Record JobData : Type := {
  type : string;
  recipient : string;
  subject : string;
  body : option string;
  html : option string;
  name : string;
  username : string;
  branch : string;
  semesterId : string;
  campus : string;
  grades : list Grade;
  records : list AttendanceRecord
}.

Record Job : Type := {
  job_id : string;
  job_name : string;
  job_data : JobData
}.

(* ================================================================= *)
(** ** Derived metrics of the result report *)

Local Open Scope float_scope.

(** The larger of two numbers, as the conditional of line 80 takes it:
    [a] when [a > b], and [b] otherwise. *)
Definition max_number (a b : number) : number := if b <? a then a else b.

(** The body of [grades.forEach] (lines 75-82) on the pair
    [(totalCredits, earnedPoints)]. *)
Definition addGrade (acc : number * number) (g : Grade) : number * number :=
  let '(totalCredits, earnedPoints) := acc in
  let credit := subject_credits (grade_subject g) in
  let gradePoint := grade g in
  let totalCredits := totalCredits + credit in
  if 0 <? credit
  then (totalCredits, earnedPoints + credit * (if 0 <? gradePoint then gradePoint else 0))
  else (totalCredits, earnedPoints).

Definition resultTotals (grades : list Grade) : number * number :=
  fold_left addGrade grades (0, 0).

Definition sgpa (grades : list Grade) : string :=
  let '(totalCredits, earnedPoints) := resultTotals grades in
  if 0 <? totalCredits then toFixed (earnedPoints / totalCredits) 2 else "0.00"%string.

Definition getGradeLetter (point : number) : string :=
  if 10 <=? point then "EX"
  else if 9 <=? point then "A"
  else if 8 <=? point then "B"
  else if 7 <=? point then "C"
  else if 6 <=? point then "D"
  else if 5 <=? point then "E"
  else "R".

Local Close Scope float_scope.

(** The title of the result report (lines 87-122). *)
Definition titleText (semesterId : string) (grades : list Grade) : string :=
  let yearStr :=
    match regex_match semesterId year_re with
    | Some yearMatch => toUpperCase (group 1 yearMatch) ++ group 2 yearMatch
    | None => ""
    end in
  let semStr :=
    match regex_match semesterId sem_re with
    | Some semMatch => group 1 semMatch
    | None => ""
    end in
  let yearStr :=
    match yearStr, grades with
    | "", g :: _ =>
        match subject_code (grade_subject g) with
        | Some (String _ _ as code) =>
            match regex_match code code_re with
            | Some codeMatch => "E" ++ group 1 codeMatch
            | None => yearStr
            end
        | _ => yearStr
        end
    | _, _ => yearStr
    end in
  match yearStr, semStr with
  | String _ _, String _ _ => yearStr ++ " SEMESTER-" ++ semStr ++ " RESULTS"
  | _, _ => replace (toUpperCase semesterId ++ " RESULTS") " RESULTS RESULTS" " RESULTS"
  end.

(** The title when [semesterId] has neither year nor semester to offer
    (lines 118-121). *)
Definition fallbackTitle (semesterId : string) : string :=
  replace (toUpperCase semesterId ++ " RESULTS") " RESULTS RESULTS" " RESULTS".

(** The subject code of the first grade entry, [grades[0].subject.code]. *)
Definition firstCode (grades : list Grade) : option string :=
  match grades with
  | g :: _ => subject_code (grade_subject g)
  | [] => None
  end.

(** A row of the grade table: course title, credits, letter. *)
Definition resultRow (g : Grade) : string * string * string :=
  (subject_name (grade_subject g),
   toFixed (subject_credits (grade_subject g)) 1,
   getGradeLetter (grade g)).

(** The values [generateResultPdf] interpolates into its markup; the markup
    around them is a constant text. *)
Record ResultDocument : Type := {
  res_watermark : string;
  res_username : string;
  res_branch : string;
  res_name : string;
  res_campus : string;
  res_title : string;
  res_rows : list (string * string * string);
  res_totalCredits : string;
  res_earnedPoints : string;
  res_sgpa : string
}.

Definition resultDocument (data : JobData) : ResultDocument :=
  let '(totalCredits, earnedPoints) := resultTotals (grades data) in
  {| res_watermark := "RGUKT " ++ toUpperCase (campus data);
     res_username := username data;
     res_branch := branch data;
     res_name := name data;
     res_campus := campus data;
     res_title := titleText (semesterId data) (grades data);
     res_rows := map resultRow (grades data);
     res_totalCredits := toFixed totalCredits 0;
     res_earnedPoints := toFixed earnedPoints 1;
     res_sgpa := sgpa (grades data) |}.

(* ================================================================= *)
(** ** Derived metrics of the attendance report *)

Local Open Scope float_scope.

(** The body of [records.forEach] (lines 234-237) on the pair
    [(totalAttended, totalClasses)]. *)
Definition addRecord (acc : number * number) (r : AttendanceRecord) : number * number :=
  let '(totalAttended, total) := acc in
  (totalAttended + attendedClasses r, total + totalClasses r).

Definition attendanceTotals (records : list AttendanceRecord) : number * number :=
  fold_left addRecord records (0, 0).

Definition overallPercent (records : list AttendanceRecord) : string :=
  let '(totalAttended, total) := attendanceTotals records in
  if 0 <? total then toFixed (totalAttended / total * 100) 2 else "0.00"%string.

(** [percent] of one row (lines 246-249). *)
Definition percent (r : AttendanceRecord) : string :=
  if 0 <? totalClasses r
  then toFixed (attendedClasses r / totalClasses r * 100) 1
  else "0.0"%string.

Local Close Scope float_scope.

(** The values [generateAttendancePdf] interpolates into its markup. The
    numbers of a row and the totals are kept as numbers, the generation
    time is left out. *)
Record AttendanceDocument : Type := {
  att_watermark : string;
  att_username : string;
  att_branch : string;
  att_name : string;
  att_campus : string;
  att_title : string;
  att_rows : list (string * option string * number * number * string);
  att_totalAttended : number;
  att_totalClasses : number;
  att_overallPercent : string
}.

Definition attendanceRow (r : AttendanceRecord)
  : string * option string * number * number * string :=
  (subject_name (record_subject r), subject_code (record_subject r),
   attendedClasses r, totalClasses r, percent r).

Definition attendanceDocument (data : JobData) : AttendanceDocument :=
  let '(totalAttended, total) := attendanceTotals (records data) in
  {| att_watermark := "RGUKT " ++ toUpperCase (campus data);
     att_username := username data;
     att_branch := branch data;
     att_name := name data;
     att_campus := campus data;
     att_title := "ATTENDANCE REPORT: " ++ toUpperCase (semesterId data);
     att_rows := map attendanceRow (records data);
     att_totalAttended := totalAttended;
     att_totalClasses := total;
     att_overallPercent := overallPercent (records data) |}.

(* ================================================================= *)
(** ** The mail template *)

(** A text given by its pieces between double quotes. *)
Definition quoted (pieces : list string) : string := String.concat dq pieces.

(** [emailTemplate] (lines 363-380). *)
Definition emailTemplate (title content : string) : string :=
  quoted ["
  <div style=";
    "font-family: Arial, sans-serif; max-width: 600px; margin: 0 auto; border: 1px solid #e5e7eb; border-radius: 8px;";
    ">
    <div style=";
    "background: linear-gradient(135deg, #2563eb 0%, #1d4ed8 100%); padding: 30px; border-radius: 8px 8px 0 0;";
    ">
      <h1 style=";
    "color: white; margin: 0; font-size: 24px;";
    ">ðŸŽ“ UniZ Campus</h1>
    </div>
    <div style=";
    "padding: 30px;";
    ">
      <h2 style=";
    "color: #1f2937; margin-top: 0;";
    ">"]
  ++ title ++
  quoted ["</h2>
      <div style=";
    "color: #4b5563; line-height: 1.6;";
    ">
        "]
  ++ content ++
  quoted ["
      </div>
      <hr style=";
    "border: none; border-top: 1px solid #e5e7eb; margin: 30px 0;";
    ">
      <p style=";
    "color: #9ca3af; font-size: 12px; margin: 0;";
    ">
        This is an automated email from UniZ Campus Management System.<br>
        Please do not reply to this email.
      </p>
    </div>
  </div>
"].

(* ================================================================= *)
(** ** Calls, outcomes and traces *)

(** A thrown [Error]: its [code] (when it has one) and its [message]. *)
Record JsError : Type := {
  err_code : option string;
  err_message : string
}.

(** [new Error(message)]. *)
Definition Error (message : string) : JsError :=
  {| err_code := None; err_message := message |}.

(** How a call ends: it returns (a promise resolves) or it throws (a
    promise rejects). *)
Inductive outcome (A : Type) : Type :=
| Return (a : A)
| Throw (e : JsError).
Arguments Return {A} a.
Arguments Throw {A} e.

(** Handles of a launched browser and of a page of it. *)
Definition Browser : Set := nat.
Definition Page : Set := nat.

Definition Buffer : Set := list Byte.byte.

Record Attachment : Type := {
  filename : string;
  content : Buffer;
  contentType : string
}.

(** The argument of [transporter.sendMail]. *)
Record Message : Type := {
  msg_from : string;
  msg_to : string;
  msg_subject : string;
  msg_html : string;
  msg_attachments : list Attachment
}.

(** The argument of [page.setContent]. *)
Inductive Html : Type :=
| ResultHtml (doc : ResultDocument)
| AttendanceHtml (doc : AttendanceDocument).

Inductive level : Set := log | warn | error.

(** One call that leaves the process, with how it ended. *)
Inductive event : Type :=
| ExecutablePath (r : outcome string)                   (* chromium.executablePath() *)
| Launch (production : bool) (executablePath : string) (r : outcome Browser)
    (* puppeteer.launch(options): the options are set by the two arguments *)
| Timeout (ms : nat)                                    (* setTimeout(r, ms), awaited *)
| NewPage (b : Browser) (r : outcome Page)
| SetContent (p : Page) (html : Html) (r : outcome unit)
| Pdf (p : Page) (r : outcome Buffer)
| Close (b : Browser) (r : outcome unit)
| SendMail (m : Message) (r : outcome unit)
| Console (l : level) (text : string) (err : option JsError).

Definition trace : Type := list event.

(** The world a job runs in: the process environment, the file system, and
    the answer of every collaborator to a call, given the calls so far. *)
Record Env : Type := {
  NODE_ENV : option string;
  PUPPETEER_EXECUTABLE_PATH : option string;
  existsSync : string -> bool;
  chromium_executablePath : trace -> outcome string;
  puppeteer_launch : trace -> bool -> string -> outcome Browser;
  browser_newPage : trace -> Browser -> outcome Page;
  page_setContent : trace -> Page -> Html -> outcome unit;
  page_pdf : trace -> Page -> outcome Buffer;
  browser_close : trace -> Browser -> outcome unit;
  transporter_sendMail : trace -> Message -> outcome unit
}.

(** An asynchronous computation: from the trace so far to its outcome and
    the trace extended by its calls. *)
Definition M (A : Type) : Type := trace -> outcome A * trace.

Definition ret {A : Type} (a : A) : M A := fun t => (Return a, t).

Definition throw {A : Type} (e : JsError) : M A := fun t => (Throw e, t).

Definition bind {A B : Type} (m : M A) (k : A -> M B) : M B :=
  fun t =>
    match m t with
    | (Return a, t') => k a t'
    | (Throw e, t') => (Throw e, t')
    end.

Declare Scope js_scope.
Delimit Scope js_scope with js.
Notation "x <- m ;; k" := (bind m (fun x => k))
  (at level 61, m at next level, right associativity) : js_scope.
Notation "m ;; k" := (bind m (fun _ => k))
  (at level 61, right associativity) : js_scope.
Local Open Scope js_scope.

(** A call: the answer is asked for and the call recorded. *)
Definition call {A : Type} (answer : trace -> outcome A) (record : outcome A -> event) : M A :=
  fun t => let r := answer t in (r, (t ++ [record r])%list).

(** A call that cannot fail. *)
Definition emit (e : event) : M unit := fun t => (Return tt, (t ++ [e])%list).

(** The outcome of [m] as a value: what a [try] block sees. *)
Definition attempt {A : Type} (m : M A) : M (outcome A) :=
  fun t => let '(r, t') := m t in (Return r, t').

(** [try { body } catch (e) { handler e }]. *)
Definition try_catch {A : Type} (body : M A) (handler : JsError -> M A) : M A :=
  fun t =>
    match body t with
    | (Return a, t') => (Return a, t')
    | (Throw e, t') => handler e t'
    end.

(** [try { body } finally { final }]: [final] runs on both exits, and when
    it throws, its error replaces the outcome of [body]. *)
Definition try_finally {A : Type} (body : M A) (final : M unit) : M A :=
  fun t =>
    let '(r, t') := body t in
    match final t' with
    | (Return _, t'') => (r, t'')
    | (Throw e, t'') => (Throw e, t'')
    end.

(** [try { body } catch (e) { handler e } finally { final }]. *)
Definition try_catch_finally {A : Type} (body : M A) (handler : JsError -> M A)
    (final : M unit) : M A :=
  try_finally (try_catch body handler) final.

(* ================================================================= *)
(** ** PDF utilities *)

Section Worker.
Variable env : Env.

Definition console (l : level) (text : string) (err : option JsError) : M unit :=
  emit (Console l text err).

Definition isProduction : bool :=
  match NODE_ENV env with
  | Some v => String.eqb v "production"
  | None => false
  end.

(** The install paths probed outside production, in order (lines 21-26). *)
Definition paths : list string :=
  [ "/Applications/Google Chrome.app/Contents/MacOS/Google Chrome";
    "/Applications/Brave Browser.app/Contents/MacOS/Brave Browser";
    "/Applications/Microsoft Edge.app/Contents/MacOS/Microsoft Edge";
    "/usr/bin/google-chrome" ].

Definition getExecutablePath : M string :=
  if isProduction then call (chromium_executablePath env) ExecutablePath
  else if truthy (PUPPETEER_EXECUTABLE_PATH env)
  then ret (interpolate (PUPPETEER_EXECUTABLE_PATH env))
  else
    match find (existsSync env) paths with
    | Some path => ret path
    | None =>
        throw (Error "Could not find a suitable browser for Puppeteer. Please install Google Chrome or Brave Browser.")
    end.

(** The error of a launch is the transient one of an executable that is
    still being written (line 58). *)
Definition isTransient (err : JsError) : bool :=
  match err_code err with
  | Some c => String.eqb c "ETXTBSY"
  | None => false
  end || includes (err_message err) "ETXTBSY".

(** The iterations [i, i + 1, ...] of the loop of [baseLaunchBrowser]
    (lines 41-66), [todo] of them left; [None] is the [undefined] the
    function returns when the loop ends. *)
Fixpoint launchLoop (execPath : string) (retries i todo : nat) : M (option Browser) :=
  match todo with
  | O => ret None
  | S todo' =>
      try_catch
        (b <- call (fun t => puppeteer_launch env t isProduction execPath)
                   (Launch isProduction execPath);;
         ret (Some b))
        (fun err =>
           if (i <? retries - 1)%nat && isTransient err
           then
             console warn ("Launch failed (attempt " ++ digits (Z.of_nat (i + 1))
                           ++ "), retrying in 200ms...") None;;
             emit (Timeout 200);;
             launchLoop execPath retries (i + 1) todo'
           else throw err)
  end.

Definition baseLaunchBrowser (retries : nat) : M (option Browser) :=
  execPath <- getExecutablePath;;
  launchLoop execPath retries 0 retries.

(** [baseLaunchBrowser()]: the default of [retries]. *)
Definition defaultRetries : nat := 3.

(** Lines 208-227: the markup is printed by a browser of its own. *)
Definition generateResultPdf (data : JobData) : M Buffer :=
  let html := ResultHtml (resultDocument data) in
  launched <- attempt (baseLaunchBrowser defaultRetries);;
  let browser := match launched with Return b => b | Throw _ => None end in
  try_catch_finally
    (match launched with
     | Throw e => throw e
     | Return None => throw (Error "Failed to launch browser")
     | Return (Some b) =>
         page <- call (fun t => browser_newPage env t b) (NewPage b);;
         call (fun t => page_setContent env t page html) (SetContent page html);;
         pdfBuffer <- call (fun t => page_pdf env t page) (Pdf page);;
         ret pdfBuffer
     end)
    (fun err => console error "Puppeteer Launch Error:" (Some err);; throw err)
    (match browser with
     | Some b => call (fun t => browser_close env t b) (Close b)
     | None => ret tt
     end).

(** Lines 319-337. *)
Definition generateAttendancePdf (data : JobData) : M Buffer :=
  let html := AttendanceHtml (attendanceDocument data) in
  launched <- attempt (baseLaunchBrowser defaultRetries);;
  let browser := match launched with Return b => b | Throw _ => None end in
  try_catch_finally
    (match launched with
     | Throw e => throw e
     | Return None => throw (Error "Failed to launch browser")
     | Return (Some b) =>
         page <- call (fun t => browser_newPage env t b) (NewPage b);;
         call (fun t => page_setContent env t page html) (SetContent page html);;
         pdfBuffer <- call (fun t => page_pdf env t page) (Pdf page);;
         ret pdfBuffer
     end)
    (fun err => console error "Puppeteer Launch Error (Attendance):" (Some err);; throw err)
    (match browser with
     | Some b => call (fun t => browser_close env t b) (Close b)
     | None => ret tt
     end).

(* =============================================================== *)
(** ** The queue handler (lines 384-453) *)

Definition sendMail (m : Message) : M unit :=
  call (fun t => transporter_sendMail env t m) (SendMail m).

Definition campusSender : string :=
  quoted [""; "UniZ Campus"; " <noreplycampusschield@gmail.com>"].

Definition academicsSender : string :=
  quoted [""; "UniZ Academics"; " <noreplycampusschield@gmail.com>"].

Definition emailMessage (data : JobData) : Message :=
  {| msg_from := campusSender;
     msg_to := recipient data;
     msg_subject := subject data;
     msg_html :=
       if truthy (html data) then interpolate (html data)
       else emailTemplate (subject data) ("<p>" ++ interpolate (body data) ++ "</p>");
     msg_attachments := [] |}.

Definition resultMessage (data : JobData) (pdfBuffer : Buffer) : Message :=
  {| msg_from := academicsSender;
     msg_to := recipient data;
     msg_subject := "Result Declaration: " ++ semesterId data;
     msg_html :=
       emailTemplate ("Result Declaration: " ++ semesterId data)
         ("<p>Dear Student,<br><br>The results for <strong>" ++ semesterId data
          ++ "</strong> have been published.<br>Please find the detailed grade report attached.</p>");
     msg_attachments :=
       [ {| filename := "ACADEMIC_REPORT_" ++ username data ++ "_" ++ semesterId data ++ ".pdf";
            content := pdfBuffer;
            contentType := "application/pdf" |} ] |}.

Definition attendanceMessage (data : JobData) (pdfBuffer : Buffer) : Message :=
  {| msg_from := academicsSender;
     msg_to := recipient data;
     msg_subject := "Attendance Report: " ++ semesterId data;
     msg_html :=
       emailTemplate ("Attendance Report: " ++ semesterId data)
         ("<p>Dear Student,<br><br>The attendance report for <strong>" ++ semesterId data
          ++ "</strong> is now available.<br>Please find your detailed attendance record attached.</p>");
     msg_attachments :=
       [ {| filename := username data ++ "_Attendance_" ++ semesterId data ++ ".pdf";
            content := pdfBuffer;
            contentType := "application/pdf" |} ] |}.

(** The processor the [Worker] is built with: a job is completed when it
    returns and failed when it throws. *)
Definition worker (job : Job) : M unit :=
  let data := job_data job in
  console log ("Processing job " ++ job_id job ++ ": " ++ job_name job) None;;
  if String.eqb (type data) "EMAIL" then
    sendMail (emailMessage data);;
    console log ("Email sent to " ++ recipient data) None
  else if String.eqb (type data) "RESULTS" then
    try_catch
      (pdfBuffer <- generateResultPdf data;;
       sendMail (resultMessage data pdfBuffer);;
       console log ("Result Email with PDF sent to " ++ recipient data) None)
      (fun e =>
         console error ("Failed to generate/send Result PDF for " ++ recipient data
                        ++ ": " ++ err_message e) None;;
         throw e)
  else if String.eqb (type data) "ATTENDANCE_REPORT" then
    try_catch
      (pdfBuffer <- generateAttendancePdf data;;
       sendMail (attendanceMessage data pdfBuffer);;
       console log ("Attendance Email with PDF sent to " ++ recipient data) None)
      (fun e =>
         console error ("Failed to generate/send Attendance PDF for " ++ recipient data
                        ++ ": " ++ err_message e) None;;
         throw e)
  else ret tt.
End Worker.


(* ================================================================= *)
(** ** Reading a trace *)

(** The messages handed to the mail transport, delivered or not. *)
Fixpoint sendCalls (t : trace) : list Message :=
  match t with
  | [] => []
  | SendMail m _ :: t' => m :: sendCalls t'
  | _ :: t' => sendCalls t'
  end.

(** The messages the mail transport accepted. *)
Fixpoint sent (t : trace) : list Message :=
  match t with
  | [] => []
  | SendMail m (Return _) :: t' => m :: sent t'
  | _ :: t' => sent t'
  end.

(** The number of [browser.close()] calls on the handle [b]. *)
Fixpoint closeCount (b : Browser) (t : trace) : nat :=
  match t with
  | [] => 0
  | Close b' _ :: t' => (if Nat.eqb b b' then 1 else 0) + closeCount b t'
  | _ :: t' => closeCount b t'
  end.

(** The number of [puppeteer.launch] attempts. *)
Fixpoint launchCount (t : trace) : nat :=
  match t with
  | [] => 0
  | Launch _ _ _ :: t' => S (launchCount t')
  | _ :: t' => launchCount t'
  end.

(** The error of the page call (newPage, setContent, pdf) that failed. *)
Fixpoint renderError (t : trace) : option JsError :=
  match t with
  | [] => None
  | NewPage _ (Throw e) :: _ => Some e
  | SetContent _ _ (Throw e) :: _ => Some e
  | Pdf _ (Throw e) :: _ => Some e
  | _ :: t' => renderError t'
  end.

(** The event of a launch attempt of [baseLaunchBrowser]. *)
Definition launched (env : Env) (execPath : string) (r : outcome Browser) : event :=
  Launch (isProduction env) execPath r.

(** The warning of iteration [i] of the launch loop (line 60). *)
Definition retryWarning (i : nat) : event :=
  Console warn ("Launch failed (attempt " ++ digits (Z.of_nat (i + 1))
                ++ "), retrying in 200ms...") None.

(** The events [baseLaunchBrowser] can add to a trace. *)
Definition launchPhase (e : event) : bool :=
  match e with
  | ExecutablePath _ | Launch _ _ _ | Timeout _ | Console warn _ _ => true
  | _ => false
  end.

(** The common shape of lines 208-227 and 319-337: the markup [html] is
    printed by a browser of its own, and a failure is logged under [label]. *)
Definition printPdf (env : Env) (html : Html) (label : string) : M Buffer :=
  launched <- attempt (baseLaunchBrowser env defaultRetries);;
  let browser := match launched with Return b => b | Throw _ => None end in
  try_catch_finally
    (match launched with
     | Throw e => throw e
     | Return None => throw (Error "Failed to launch browser")
     | Return (Some b) =>
         page <- call (fun t => browser_newPage env t b) (NewPage b);;
         call (fun t => page_setContent env t page html) (SetContent page html);;
         pdfBuffer <- call (fun t => page_pdf env t page) (Pdf page);;
         ret pdfBuffer
     end)
    (fun err => console error label (Some err);; throw err)
    (match browser with
     | Some b => call (fun t => browser_close env t b) (Close b)
     | None => ret tt
     end).

(** [generate] releases the browser it launched exactly once, as the last
    thing it does, and fails when a page call failed: with the error of that
    call when the release returns, with the error of the release when the
    release raises. *)
Definition releasesOnce (env : Env) (generate : JobData -> M Buffer) : Prop :=
  forall (data : JobData) (t t1 : trace) (b : Browser),
    baseLaunchBrowser env defaultRetries t = (Return (Some b), t1) ->
    exists s rc,
      snd (generate data t) = (t ++ s ++ [Close b rc])%list /\
      closeCount b (s ++ [Close b rc])%list = 1 /\
      (forall e', rc = Throw e' -> fst (generate data t) = Throw e') /\
      (forall e, rc = Return tt -> renderError s = Some e ->
                 fst (generate data t) = Throw e) /\
      (rc = Return tt -> renderError s = None ->
       exists page pdf, In (Pdf page (Return pdf)) s /\ fst (generate data t) = Return pdf).

(** The [try] statement of a report branch of the handler (lines 397-423
    and 425-451): the generator, the message built around its PDF, the text
    logged on success and the text logged for an error. *)
Definition reportBranch (env : Env) (generate : M Buffer) (message : Buffer -> Message)
    (done : string) (failed : JsError -> string) : M unit :=
  try_catch
    (pdfBuffer <- generate;;
     sendMail env (message pdfBuffer);;
     console log done None)
    (fun e => console error (failed e) None;; throw e).

(** The two report jobs: the generator, the message and the word the
    failure log names the report by. *)
Definition reportJob (env : Env) (data : JobData) (generate : M Buffer)
    (message : Buffer -> Message) (label : string) : Prop :=
  (type data = "RESULTS" /\ generate = generateResultPdf env data /\
   message = resultMessage data /\ label = "Result") \/
  (type data = "ATTENDANCE_REPORT" /\ generate = generateAttendancePdf env data /\
   message = attendanceMessage data /\ label = "Attendance").

(* ================================================================= *)
(** ** Sample payloads and environments *)

Definition sampleSubject (code : option string) (credits : number) : Subject :=
  {| subject_name := "Course"; subject_code := code; subject_credits := credits |}.

Definition sampleGrade (code : option string) (credits gradePoint : number) : Grade :=
  {| grade_subject := sampleSubject code credits; grade := gradePoint |}.

(** Scenario A: credits [4, 3] with grade points [9, 7]. *)
Definition scenarioA : list Grade :=
  [ sampleGrade (Some "CS2101") 4%float 9%float;
    sampleGrade (Some "CS2102") 3%float 7%float ].

(** Scenario B: one record, 45 classes attended of 60. *)
Definition scenarioB : list AttendanceRecord :=
  [ {| record_subject := sampleSubject (Some "CS2101") 4%float;
       attendedClasses := 45%float; totalClasses := 60%float |} ].

Definition sampleData (kind : string) (grades : list Grade)
    (records : list AttendanceRecord) : JobData :=
  {| type := kind; recipient := "student@example.org"; subject := "Notice";
     body := Some "Hello"; html := None;
     name := "A Student"; username := "O210001"; branch := "CSE";
     semesterId := "E2S1"; campus := "Ongole";
     grades := grades; records := records |}.

(** A world where every collaborator does its part. [override] is the
    PUPPETEER_EXECUTABLE_PATH variable and [installed] the file system;
    [launch], [setContent], [close] and [send] answer the calls of the same
    name. *)
Definition sampleEnv (override : option string) (installed : string -> bool)
    (launch : trace -> outcome Browser) (setContent close send : outcome unit) : Env :=
  {| NODE_ENV := Some "development";
     PUPPETEER_EXECUTABLE_PATH := override;
     existsSync := installed;
     chromium_executablePath := fun _ => Return "/tmp/chromium";
     puppeteer_launch := fun t _ _ => launch t;
     browser_newPage := fun _ _ => Return 7;
     page_setContent := fun _ _ _ => setContent;
     page_pdf := fun _ _ => Return [Byte.x25; Byte.x50; Byte.x44; Byte.x46];
     browser_close := fun _ _ => close;
     transporter_sendMail := fun _ _ => send |}.

Definition chromeInstalled (path : string) : bool :=
  String.eqb path "/usr/bin/google-chrome".

Definition idealEnv : Env :=
  sampleEnv None chromeInstalled (fun _ => Return 1) (Return tt) (Return tt) (Return tt).

(** The override names a file that is not there, and no browser is
    installed. *)
Definition missingOverrideEnv : Env :=
  sampleEnv (Some "/opt/missing/chrome") (fun _ => false)
    (fun _ => Return 1) (Return tt) (Return tt) (Return tt).

Definition sampleJob (data : JobData) : Job :=
  {| job_id := "42"; job_name := "notify"; job_data := data |}.

(** The executable is still being written when the first [busy] launches
    are attempted (scenario D has two of them). *)
Definition textFileBusy : JsError :=
  {| err_code := Some "ETXTBSY"; err_message := "spawn ETXTBSY" |}.

Definition busyEnv (busy : nat) : Env :=
  sampleEnv None chromeInstalled
    (fun t => if (launchCount t <? busy)%nat then Throw textFileBusy else Return 1)
    (Return tt) (Return tt) (Return tt).

(** The page cannot take the markup, and the browser cannot be closed
    in an orderly way either. *)
Definition navigationFailed : JsError := Error "Navigation failed".
Definition connectionClosed : JsError := Error "Protocol error: Connection closed".

Definition brokenBrowserEnv : Env :=
  sampleEnv None chromeInstalled (fun _ => Return 1)
    (Throw navigationFailed) (Throw connectionClosed) (Return tt).

(** The first entry has a code with no leading letters; the second one
    has a code that names the second year. *)
Definition laterCodeGrades : list Grade :=
  [ sampleGrade (Some "123") 4%float 9%float;
    sampleGrade (Some "CS2101") 3%float 7%float ].


(* ================================================================= *)
(** ** Further readings of a trace *)

(** The number of launches that returned the browser [b]. *)
Fixpoint opened (b : Browser) (t : trace) : nat :=
  match t with
  | [] => 0
  | Launch _ _ (Return b') :: t' => (if Nat.eqb b b' then 1 else 0) + opened b t'
  | _ :: t' => opened b t'
  end.

(** The milliseconds spent waiting on timers. *)
Fixpoint totalWait (t : trace) : nat :=
  match t with
  | [] => 0
  | Timeout ms :: t' => ms + totalWait t'
  | _ :: t' => totalWait t'
  end.

(** The number of calls on a page (newPage, setContent, pdf). *)
Fixpoint pageCalls (t : trace) : nat :=
  match t with
  | [] => 0
  | NewPage _ _ :: t' | SetContent _ _ _ :: t' | Pdf _ _ :: t' => S (pageCalls t')
  | _ :: t' => pageCalls t'
  end.

(** The three job types the handler has a branch for. *)
Definition knownType (kind : string) : bool :=
  String.eqb kind "EMAIL" || String.eqb kind "RESULTS"
  || String.eqb kind "ATTENDANCE_REPORT".

(** The place of a letter in the grade table, R lowest and EX highest. *)
Definition letterRank (l : string) : nat :=
  if String.eqb l "EX" then 6
  else if String.eqb l "A" then 5
  else if String.eqb l "B" then 4
  else if String.eqb l "C" then 3
  else if String.eqb l "D" then 2
  else if String.eqb l "E" then 1
  else 0.

(** [s] ends with [suffix]. *)
Definition endsWith (s suffix : string) : Prop := exists p, s = p ++ suffix.

(** [needle] stands somewhere in [s]. *)
Definition contains (s needle : string) : Prop :=
  exists pre post, s = pre ++ needle ++ post.

(** The page calls after a launch that returned [b], in full: what is
    added to the trace between the launch and the release, and how the
    [try] block with its [catch] ends. *)
Definition pageRun (html : Html) (label : string) (b : Browser) (render : trace)
    (body : outcome Buffer) : Prop :=
  (exists e, render = [NewPage b (Throw e); Console error label (Some e)] /\ body = Throw e) \/
  (exists page e,
     render = [NewPage b (Return page); SetContent page html (Throw e);
               Console error label (Some e)] /\ body = Throw e) \/
  (exists page e,
     render = [NewPage b (Return page); SetContent page html (Return tt);
               Pdf page (Throw e); Console error label (Some e)] /\ body = Throw e) \/
  (exists page pdf,
     render = [NewPage b (Return page); SetContent page html (Return tt);
               Pdf page (Return pdf)] /\ body = Return pdf).

(** The two generators of a job, each with the markup it prints and the
    label it logs a failure under. *)
Definition generators (env : Env) (data : JobData) : list (M Buffer * Html * string) :=
  [ (generateResultPdf env data, ResultHtml (resultDocument data),
     "Puppeteer Launch Error:");
    (generateAttendancePdf env data, AttendanceHtml (attendanceDocument data),
     "Puppeteer Launch Error (Attendance):") ].

(** The first thing the handler logs (line 385). *)
Definition processing (job : Job) : event :=
  Console log ("Processing job " ++ job_id job ++ ": " ++ job_name job) None.

(** The EMAIL branch of the handler (lines 389-395). *)
Definition emailBranch (env : Env) (data : JobData) : M unit :=
  (sendMail env (emailMessage data);;
   console log ("Email sent to " ++ recipient data) None)%js.

(** What the handler runs after its first log line, by job type. *)
Definition branchOf (env : Env) (data : JobData) : M unit :=
  if String.eqb (type data) "EMAIL" then emailBranch env data
  else if String.eqb (type data) "RESULTS" then
    reportBranch env (generateResultPdf env data) (resultMessage data)
      ("Result Email with PDF sent to " ++ recipient data)
      (fun e => "Failed to generate/send Result PDF for " ++ recipient data
                ++ ": " ++ err_message e)
  else if String.eqb (type data) "ATTENDANCE_REPORT" then
    reportBranch env (generateAttendancePdf env data) (attendanceMessage data)
      ("Attendance Email with PDF sent to " ++ recipient data)
      (fun e => "Failed to generate/send Attendance PDF for " ++ recipient data
                ++ ": " ++ err_message e)
  else ret tt.

(** The trace of a handler run: the first log line, the events of a
    generation (none for a job without report), and a tail with the mail
    call, if any, first. *)
Definition handlerTail (data : JobData) (tail : trace) (res : outcome unit) : Prop :=
  (tail = [] /\ res = Return tt /\ knownType (type data) = false) \/
  (exists m u text,
     tail = [SendMail m (Return u); Console log text None] /\ res = Return tt /\
     msg_to m = recipient data /\ knownType (type data) = true) \/
  (exists m e,
     tail = [SendMail m (Throw e)] /\ res = Throw e /\ msg_to m = recipient data) \/
  (exists m e text,
     tail = [SendMail m (Throw e); Console error text None] /\ res = Throw e /\
     msg_to m = recipient data) \/
  (exists e text, tail = [Console error text None] /\ res = Throw e).

(** A pattern whose classes do not tell a letter from its upper case. *)
Fixpoint caseless (r : regex) : Prop :=
  match r with
  | Empty | Bos => True
  | Chars cls | Plus cls => forall c, cls (upper_char c) = cls c
  | Seq r1 r2 => caseless r1 /\ caseless r2
  | Optional r' | Group r' => caseless r'
  end.

(** The error a call ended with, for a call that raised. *)
Definition thrownBy (ev : event) : option JsError :=
  match ev with
  | ExecutablePath (Throw e) | Launch _ _ (Throw e) | NewPage _ (Throw e)
  | SetContent _ _ (Throw e) | Pdf _ (Throw e) | Close _ (Throw e)
  | SendMail _ (Throw e) => Some e
  | _ => None
  end.

(** The error of [getExecutablePath] when no browser is installed
    (lines 32-34). *)
Definition noBrowserFound : JsError :=
  Error "Could not find a suitable browser for Puppeteer. Please install Google Chrome or Brave Browser.".

(** No browser is installed and no override is set. *)
Definition noBrowserEnv : Env :=
  sampleEnv None (fun _ => false) (fun _ => Return 1) (Return tt) (Return tt) (Return tt).

(** The mail transport is down. *)
Definition connectionRefused : JsError :=
  {| err_code := Some "ECONNREFUSED"; err_message := "connect ECONNREFUSED" |}.

Definition mailDownEnv : Env :=
  sampleEnv None chromeInstalled (fun _ => Return 1) (Return tt) (Return tt)
    (Throw connectionRefused).

(* ================================================================= *)
(** * Properties *)

(* ================================================================= *)
(** ** Comparisons of numbers *)

Lemma SFcompare_antisym (x y : spec_float) :
  SFcompare y x = option_map CompOpp (SFcompare x y).
Proof.
  destruct x as [sx | sx | | sx mx ex], y as [sy | sy | | sy my ey]; simpl;
    try reflexivity; try (destruct sx; reflexivity); try (destruct sy; reflexivity);
    try (destruct sx, sy; reflexivity).
  f_equal.
  rewrite (Z.compare_antisym ex ey).
  destruct sx, sy; try reflexivity;
    destruct (ex ?= ey)%Z; simpl; try reflexivity.
  - f_equal. symmetry. exact (Pos.compare_cont_antisym mx my Eq).
  - symmetry. exact (Pos.compare_cont_antisym mx my Eq).
Qed.

Lemma SFleb_trans (x y z : spec_float) :
  SFleb x y = true -> SFleb y z = true -> SFleb x z = true.
Proof.
  unfold SFleb.
  destruct x as [sx | sx | | sx mx ex], y as [sy | sy | | sy my ey],
           z as [sz | sz | | sz mz ez]; simpl;
    try discriminate; try reflexivity;
    try (destruct sx; simpl; try discriminate; try reflexivity);
    try (destruct sy; simpl; try discriminate; try reflexivity);
    try (destruct sz; simpl; try discriminate; try reflexivity);
    change (PosDef.Pos.compare_cont Eq) with Pos.compare;
    repeat match goal with
    | |- context [(?a ?= ?b)%Z] => destruct (Z.compare_spec a b)
    | |- context [(?a ?= ?b)%positive] => destruct (Pos.compare_spec a b)
    end; simpl; try discriminate; try reflexivity; intros; exfalso; subst; lia.
Qed.

Lemma SFcompare_None (x y : spec_float) :
  SFcompare x y = None -> x = S754_nan \/ y = S754_nan.
Proof. destruct x, y; simpl; try discriminate; auto. Qed.

Local Open Scope float_scope.

(** [<=] on numbers is transitive. *)
Lemma number_leb_trans (a b c : number) :
  (a <=? b) = true -> (b <=? c) = true -> (a <=? c) = true.
Proof. rewrite !leb_spec. apply SFleb_trans. Qed.

(** Below a number that compares with [p], "not [b <= p]" is [p < b]. *)
Lemma number_leb_false_ltb (a b p : number) :
  (a <=? p) = true -> (b <=? b) = true ->
  ((b <=? p) = false <-> (p <? b) = true).
Proof.
  rewrite !leb_spec, ltb_spec. unfold SFleb, SFltb.
  rewrite (SFcompare_antisym (Prim2SF b) (Prim2SF p)).
  intros Hp Hb.
  destruct (SFcompare (Prim2SF b) (Prim2SF p)) as [c |] eqn:Hc.
  - destruct c; simpl; split; congruence.
  - apply SFcompare_None in Hc. destruct Hc as [Hc | Hc]; rewrite Hc in *.
    + discriminate Hb.
    + destruct (Prim2SF a); discriminate Hp.
Qed.

(** A number equal to zero is not above zero. *)
Lemma number_eqb_zero_not_pos (x : number) :
  (x =? 0) = true -> (0 <? x) = false.
Proof.
  rewrite eqb_spec, ltb_spec. unfold SFeqb, SFltb.
  replace (Prim2SF 0) with (S754_zero false) by reflexivity.
  destruct (Prim2SF x) as [s | s | | s m e]; simpl; try discriminate; try reflexivity;
    destruct s; discriminate.
Qed.

Local Close Scope float_scope.

(* ================================================================= *)
(** ** Printing numbers *)

(** [toFixed] on values whose JavaScript rendering is well known: rounding
    up on a tie, the exact value of an inexact literal, signed zero, the
    exponent form from 10^21 on. *)
Example toFixed_samples :
  [ toFixed (57 / 7)%float 2; toFixed 0.5%float 0; toFixed 2.5%float 0;
    toFixed (-1.5)%float 0; toFixed 0x1.0147ae147ae14p+0%float 2;
    toFixed 0%float 2; toFixed (-0)%float 2; toFixed 0x1.0624dd2f1a9fcp-10%float 2;
    toFixed 1e21%float 2; toFixed 0x1p+70%float 2;
    toFixed 0x1.fffffffffffffp+1023%float 0; toFixed 123.5%float 1;
    toFixed nan 2; toFixed neg_infinity 2; toFixed 1e20%float 1 ]
  = [ "8.14"; "1"; "3"; "-2"; "1.00"; "0.00"; "0.00"; "0.00";
      "1e+21"; "1.1805916207174113e+21"; "1.7976931348623157e+308"; "123.5";
      "NaN"; "-Infinity"; "100000000000000000000.0" ].
Proof. vm_compute. reflexivity. Qed.

(* ================================================================= *)
(** ** The result report: totals, SGPA and letters *)

Local Open Scope float_scope.

Lemma resultTotals_fold (grades : list Grade) (tc ep : number) :
  fold_left addGrade grades (tc, ep) =
  (fold_left (fun acc g => acc + subject_credits (grade_subject g)) grades tc,
   fold_left (fun acc g =>
                if 0 <? subject_credits (grade_subject g)
                then acc + subject_credits (grade_subject g) * max_number (grade g) 0
                else acc) grades ep).
Proof.
  revert tc ep. induction grades as [| g grades IH]; intros tc ep; simpl.
  - reflexivity.
  - unfold max_number.
    destruct (0 <? subject_credits (grade_subject g)); apply IH.
Qed.

(** C4. For every result payload the loop leaves in [totalCredits] the sum
    of the credits of all entries, taken in order, and in [earnedPoints] the
    sum of [credit * max(gradePoint, 0)] over the entries with [credit > 0];
    the SGPA printed in the report is [earnedPoints / totalCredits] with two
    decimals when [totalCredits] is positive and "0.00" when it is zero.
    For credits [4, 3] with grade points [9, 7] the totals are 7 and 57 and
    the SGPA is "8.14". *)
Theorem sgpa_computation (data : JobData) :
  let credit := fun g => subject_credits (grade_subject g) in
  let totalCredits := fold_left (fun acc g => acc + credit g) (grades data) 0 in
  let earnedPoints :=
    fold_left (fun acc g =>
                 if 0 <? credit g then acc + credit g * max_number (grade g) 0 else acc)
              (grades data) 0 in
  resultTotals (grades data) = (totalCredits, earnedPoints) /\
  ((0 <? totalCredits) = true ->
   res_sgpa (resultDocument data) = toFixed (earnedPoints / totalCredits) 2) /\
  ((totalCredits =? 0) = true -> res_sgpa (resultDocument data) = "0.00"%string) /\
  resultTotals scenarioA = (7, 57) /\
  res_sgpa (resultDocument (sampleData "RESULTS" scenarioA [])) = "8.14"%string.
Proof.
  intros credit totalCredits earnedPoints.
  assert (Htot : resultTotals (grades data) = (totalCredits, earnedPoints))
    by apply resultTotals_fold.
  assert (Hdoc : res_sgpa (resultDocument data) = sgpa (grades data)).
  { unfold resultDocument. destruct (resultTotals (grades data)). reflexivity. }
  rewrite Hdoc. unfold sgpa. rewrite Htot.
  split; [reflexivity |].
  split; [intros H; rewrite H; reflexivity |].
  split; [intros H; rewrite (number_eqb_zero_not_pos _ H); reflexivity |].
  split; vm_compute; reflexivity.
Qed.

Definition letters : list string := ["EX"; "A"; "B"; "C"; "D"; "E"; "R"]%string.

(** C5. [getGradeLetter] is defined on every number and follows the table
    >= 10 EX, >= 9 A, >= 8 B, >= 7 C, >= 6 D, >= 5 E, else R: each letter is
    given exactly on its interval, closed below and open above, and R to
    every number that is not >= 5 (NaN among them), so every grade point has
    one letter and no two intervals meet. *)
Theorem getGradeLetter_partition (point : number) :
  In (getGradeLetter point) letters /\
  (getGradeLetter point = "EX"%string <-> (10 <=? point) = true) /\
  (getGradeLetter point = "A"%string <-> (9 <=? point) = true /\ (point <? 10) = true) /\
  (getGradeLetter point = "B"%string <-> (8 <=? point) = true /\ (point <? 9) = true) /\
  (getGradeLetter point = "C"%string <-> (7 <=? point) = true /\ (point <? 8) = true) /\
  (getGradeLetter point = "D"%string <-> (6 <=? point) = true /\ (point <? 7) = true) /\
  (getGradeLetter point = "E"%string <-> (5 <=? point) = true /\ (point <? 6) = true) /\
  (getGradeLetter point = "R"%string <-> (5 <=? point) = false).
Proof.
  assert (M56 : (6 <=? point) = true -> (5 <=? point) = true)
    by (apply number_leb_trans; reflexivity).
  assert (M67 : (7 <=? point) = true -> (6 <=? point) = true)
    by (apply number_leb_trans; reflexivity).
  assert (M78 : (8 <=? point) = true -> (7 <=? point) = true)
    by (apply number_leb_trans; reflexivity).
  assert (M89 : (9 <=? point) = true -> (8 <=? point) = true)
    by (apply number_leb_trans; reflexivity).
  assert (M90 : (10 <=? point) = true -> (9 <=? point) = true)
    by (apply number_leb_trans; reflexivity).
  assert (L6 : (5 <=? point) = true -> ((6 <=? point) = false <-> (point <? 6) = true))
    by (intros H; apply (number_leb_false_ltb 5); [exact H | reflexivity]).
  assert (L7 : (6 <=? point) = true -> ((7 <=? point) = false <-> (point <? 7) = true))
    by (intros H; apply (number_leb_false_ltb 6); [exact H | reflexivity]).
  assert (L8 : (7 <=? point) = true -> ((8 <=? point) = false <-> (point <? 8) = true))
    by (intros H; apply (number_leb_false_ltb 7); [exact H | reflexivity]).
  assert (L9 : (8 <=? point) = true -> ((9 <=? point) = false <-> (point <? 9) = true))
    by (intros H; apply (number_leb_false_ltb 8); [exact H | reflexivity]).
  assert (L10 : (9 <=? point) = true -> ((10 <=? point) = false <-> (point <? 10) = true))
    by (intros H; apply (number_leb_false_ltb 9); [exact H | reflexivity]).
  unfold getGradeLetter, letters.
  destruct (10 <=? point) eqn:H10, (9 <=? point) eqn:H9, (8 <=? point) eqn:H8,
    (7 <=? point) eqn:H7, (6 <=? point) eqn:H6, (5 <=? point) eqn:H5;
    try (pose proof (M90 eq_refl); discriminate);
    try (pose proof (M89 eq_refl); discriminate);
    try (pose proof (M78 eq_refl); discriminate);
    try (pose proof (M67 eq_refl); discriminate);
    try (pose proof (M56 eq_refl); discriminate);
    simpl; 
    try specialize (L6 eq_refl); try specialize (L7 eq_refl);
    try specialize (L8 eq_refl); try specialize (L9 eq_refl);
    try specialize (L10 eq_refl);
    intuition (try discriminate; try congruence).
Qed.

Local Close Scope float_scope.

(* ================================================================= *)
(** ** The attendance report: percentages *)

Local Open Scope float_scope.

Lemma attendanceTotals_fold (records : list AttendanceRecord) (ta tc : number) :
  fold_left addRecord records (ta, tc) =
  (fold_left (fun acc r => acc + attendedClasses r) records ta,
   fold_left (fun acc r => acc + totalClasses r) records tc).
Proof.
  revert ta tc. induction records as [| r records IH]; intros ta tc; simpl.
  - reflexivity.
  - apply IH.
Qed.

(** C6. For every attendance payload the overall percentage printed in the
    report is [(sum of attendedClasses / sum of totalClasses) * 100] with two
    decimals, and "0.00" when the summed [totalClasses] is zero; the rows
    carry, in order, each record's own percentage with one decimal, and
    "0.0" for a record whose [totalClasses] is zero. One record with 45 of 60
    classes attended gives "75.0" in its row and "75.00" overall. *)
Theorem attendance_percentages (data : JobData) :
  let totalAttended := fold_left (fun acc r => acc + attendedClasses r) (records data) 0 in
  let total := fold_left (fun acc r => acc + totalClasses r) (records data) 0 in
  let doc := attendanceDocument data in
  ((0 <? total) = true ->
   att_overallPercent doc = toFixed (totalAttended / total * 100) 2) /\
  ((total =? 0) = true -> att_overallPercent doc = "0.00"%string) /\
  map snd (att_rows doc) = map percent (records data) /\
  (forall r,
     ((0 <? totalClasses r) = true ->
      percent r = toFixed (attendedClasses r / totalClasses r * 100) 1) /\
     ((totalClasses r =? 0) = true -> percent r = "0.0"%string)) /\
  (let docB := attendanceDocument (sampleData "ATTENDANCE_REPORT" [] scenarioB) in
   map snd (att_rows docB) = ["75.0"%string] /\
   att_overallPercent docB = "75.00"%string).
Proof.
  intros totalAttended total doc.
  assert (Htot : attendanceTotals (records data) = (totalAttended, total))
    by apply attendanceTotals_fold.
  assert (Hdoc : att_overallPercent doc = overallPercent (records data)).
  { unfold doc, attendanceDocument. destruct (attendanceTotals (records data)). reflexivity. }
  assert (Hrows : att_rows doc = map attendanceRow (records data)).
  { unfold doc, attendanceDocument. destruct (attendanceTotals (records data)). reflexivity. }
  rewrite Hdoc, Hrows. unfold overallPercent. rewrite Htot.
  split; [intros H; rewrite H; reflexivity |].
  split; [intros H; rewrite (number_eqb_zero_not_pos _ H); reflexivity |].
  split; [rewrite map_map; reflexivity |].
  split.
  - intros r. unfold percent. split; intros H.
    + rewrite H. reflexivity.
    + rewrite (number_eqb_zero_not_pos _ H). reflexivity.
  - split; vm_compute; reflexivity.
Qed.

Local Close Scope float_scope.

(* ================================================================= *)
(** ** Reading the trace of two runs in a row *)

Lemma sendCalls_app (s1 s2 : trace) :
  sendCalls (s1 ++ s2)%list = (sendCalls s1 ++ sendCalls s2)%list.
Proof.
  induction s1 as [| e s1 IH]; simpl; [reflexivity |].
  destruct e; simpl; rewrite ?IH; reflexivity.
Qed.

Lemma sent_app (s1 s2 : trace) :
  sent (s1 ++ s2)%list = (sent s1 ++ sent s2)%list.
Proof.
  induction s1 as [| e s1 IH]; simpl; [reflexivity |].
  destruct e as [| | | | | | | m [u | err] |]; simpl; rewrite ?IH; reflexivity.
Qed.

Lemma closeCount_app (b : Browser) (s1 s2 : trace) :
  closeCount b (s1 ++ s2)%list = closeCount b s1 + closeCount b s2.
Proof.
  induction s1 as [| e s1 IH]; simpl; [reflexivity |].
  destruct e; simpl; rewrite ?IH; try reflexivity. lia.
Qed.

(* ================================================================= *)
(** ** Resolving the browser executable *)

Lemma find_first {A : Type} (f : A -> bool) (pre : list A) (x : A) (post : list A) :
  (forall y, In y pre -> f y = false) -> f x = true ->
  find f (pre ++ x :: post) = Some x.
Proof.
  induction pre as [| y pre IH]; intros Hpre Hx; simpl.
  - rewrite Hx. reflexivity.
  - rewrite (Hpre y (or_introl eq_refl)). apply IH; [| exact Hx].
    intros z Hz. apply Hpre. right. exact Hz.
Qed.

Lemma find_none {A : Type} (f : A -> bool) (l : list A) :
  (forall y, In y l -> f y = false) -> find f l = None.
Proof.
  induction l as [| y l IH]; intros H; simpl.
  - reflexivity.
  - rewrite (H y (or_introl eq_refl)). apply IH. intros z Hz. apply H. right. exact Hz.
Qed.

(** C8, as stated, fails: outside production the path returned need not
    exist on the file system. With the override set to a file that is not
    there and no browser installed, [getExecutablePath] returns the override
    where the claim has it raise. *)
Lemma getExecutablePath_override_unchecked :
  isProduction missingOverrideEnv = false /\
  (forall path, existsSync missingOverrideEnv path = false) /\
  getExecutablePath missingOverrideEnv [] = (Return "/opt/missing/chrome", []) /\
  ~ (forall path t, getExecutablePath missingOverrideEnv [] = (Return path, t) ->
                    existsSync missingOverrideEnv path = true).
Proof.
  split; [reflexivity |]. split; [reflexivity |]. split; [reflexivity |].
  intros H. specialize (H "/opt/missing/chrome" [] eq_refl). discriminate H.
Qed.

(** C8, amended. In production [getExecutablePath] returns what the managed
    chromium package resolves. Outside production it returns the override
    variable when that is set and not empty, without looking for the file;
    otherwise the first of the four listed install paths that exists on the
    file system; and it raises when the override is unset or empty and none
    of the listed paths exists. *)
Theorem getExecutablePath_resolution (env : Env) (t : trace) :
  (isProduction env = true ->
   getExecutablePath env t =
   (chromium_executablePath env t, (t ++ [ExecutablePath (chromium_executablePath env t)])%list)) /\
  (isProduction env = false ->
   forall override, PUPPETEER_EXECUTABLE_PATH env = Some override -> override <> "" ->
   getExecutablePath env t = (Return override, t)) /\
  (isProduction env = false ->
   PUPPETEER_EXECUTABLE_PATH env = None \/ PUPPETEER_EXECUTABLE_PATH env = Some "" ->
   (forall pre path post,
      paths = (pre ++ path :: post)%list ->
      (forall p, In p pre -> existsSync env p = false) ->
      existsSync env path = true ->
      getExecutablePath env t = (Return path, t)) /\
   ((forall p, In p paths -> existsSync env p = false) ->
    exists e, getExecutablePath env t = (Throw e, t))) /\
  getExecutablePath idealEnv t = (Return "/usr/bin/google-chrome", t).
Proof.
  unfold getExecutablePath.
  split; [| split; [| split; [| reflexivity]]].
  - intros Hprod. rewrite Hprod. reflexivity.
  - intros Hprod override Hov Hne. rewrite Hprod, Hov.
    destruct override as [| c override]; [contradiction |]. reflexivity.
  - intros Hprod Hov. rewrite Hprod.
    assert (Hfalsy : truthy (PUPPETEER_EXECUTABLE_PATH env) = false)
      by (destruct Hov as [Hov | Hov]; rewrite Hov; reflexivity).
    rewrite Hfalsy. split.
    + intros pre path post Hpaths Hpre Hpath.
      rewrite Hpaths, (find_first _ _ _ _ Hpre Hpath). reflexivity.
    + intros Hnone. rewrite (find_none _ _ Hnone). eexists. reflexivity.
Qed.

(* ================================================================= *)
(** ** Jobs that print nothing *)

(** C9. A job whose type is none of EMAIL, RESULTS and ATTENDANCE_REPORT is
    completed: the handler logs that it processes the job, returns without
    raising, and nothing is handed to the mail transport. *)
Theorem worker_unknown_type (env : Env) (job : Job) (t : trace) :
  type (job_data job) <> "EMAIL" ->
  type (job_data job) <> "RESULTS" ->
  type (job_data job) <> "ATTENDANCE_REPORT" ->
  worker env job t =
  (Return tt,
   (t ++ [Console log ("Processing job " ++ job_id job ++ ": " ++ job_name job) None])%list) /\
  sendCalls (snd (worker env job t)) = sendCalls t.
Proof.
  intros He Hr Ha.
  apply String.eqb_neq in He, Hr, Ha.
  unfold worker, bind, console, emit, ret. rewrite He, Hr, Ha. simpl.
  split; [reflexivity |].
  rewrite sendCalls_app. simpl. apply app_nil_r.
Qed.

Lemma worker_unknown_type_witness :
  worker idealEnv (sampleJob (sampleData "SMS" [] [])) [] =
  (Return tt, [Console log "Processing job 42: notify" None]) /\
  sendCalls (snd (worker idealEnv (sampleJob (sampleData "SMS" [] [])) [])) = sendCalls [].
Proof.
  apply (worker_unknown_type idealEnv (sampleJob (sampleData "SMS" [] [])) []);
    simpl; discriminate.
Defined.

(** C10. For an EMAIL job whose [html] is the empty string the handler does
    what it does when [html] is absent: the one message handed to the mail
    transport has as its body the default template around
    "<p>" + body + "</p>", not the empty string. *)
Theorem worker_email_empty_html (env : Env) (job : Job) (t : trace) :
  type (job_data job) = "EMAIL" ->
  html (job_data job) = Some "" ->
  let data := job_data job in
  let absent :=
    {| type := type data; recipient := recipient data; subject := subject data;
       body := body data; html := None;
       name := name data; username := username data; branch := branch data;
       semesterId := semesterId data; campus := campus data;
       grades := grades data; records := records data |} in
  let sameJob := {| job_id := job_id job; job_name := job_name job; job_data := absent |} in
  worker env job t = worker env sameJob t /\
  sendCalls (snd (worker env job t)) = (sendCalls t ++ [emailMessage data])%list /\
  msg_html (emailMessage data)
  = emailTemplate (subject data) ("<p>" ++ interpolate (body data) ++ "</p>").
Proof.
  intros Htype Hhtml data absent sameJob.
  assert (Hmsg : emailMessage data = emailMessage absent).
  { unfold emailMessage, absent, data. simpl. rewrite Hhtml. reflexivity. }
  split; [| split].
  - unfold worker. simpl. fold data. rewrite Hmsg. unfold data. rewrite Htype. reflexivity.
  - unfold worker, bind, console, emit, sendMail, call. rewrite Htype. simpl.
    destruct (transporter_sendMail env _ _); simpl;
      rewrite <- ?app_assoc, sendCalls_app; reflexivity.
  - unfold emailMessage, data. rewrite Hhtml. reflexivity.
Qed.

Lemma worker_email_empty_html_witness :
  let job :=
    sampleJob {| type := "EMAIL"; recipient := "student@example.org"; subject := "Notice";
                 body := Some "Hello"; html := Some "";
                 name := ""; username := ""; branch := ""; semesterId := ""; campus := "";
                 grades := []; records := [] |} in
  sendCalls (snd (worker idealEnv job [])) = (sendCalls [] ++ [emailMessage (job_data job)])%list /\
  msg_html (emailMessage (job_data job)) = emailTemplate "Notice" "<p>Hello</p>".
Proof.
  intros job.
  pose proof (worker_email_empty_html idealEnv job [] eq_refl eq_refl) as H.
  exact (proj2 H).
Defined.

(* ================================================================= *)
(** ** Launching the browser *)

Section Launch.
Variable env : Env.
Variable execPath : string.
Variable retries : nat.

Let tried := launched env execPath.

(** One iteration of the loop. *)
Lemma launchLoop_step (i todo : nat) (t : trace) :
  launchLoop env execPath retries i (S todo) t =
  let r := puppeteer_launch env t (isProduction env) execPath in
  match r with
  | Return b => (Return (Some b), (t ++ [tried r])%list)
  | Throw err =>
      if (i <? retries - 1)%nat && isTransient err
      then launchLoop env execPath retries (i + 1) todo
             (t ++ [tried r; retryWarning i; Timeout 200])%list
      else (Throw err, (t ++ [tried r])%list)
  end.
Proof.
  unfold tried, retryWarning. simpl.
  unfold try_catch, bind, call, console, emit, ret, throw.
  destruct (puppeteer_launch env t (isProduction env) execPath) as [b | err]; simpl.
  - reflexivity.
  - destruct ((i <? retries - 1)%nat && isTransient err); [| reflexivity].
    rewrite <- !app_assoc. reflexivity.
Qed.

(** What the iterations from [i] on add to the trace, when [todo] of them
    are left: at most [todo] launches; a launch that returns ends the loop
    with its browser; a launch that fails on a transient error while
    iterations are left is followed by the warning, the wait of 200 ms and
    the next launch; any other failed launch ends the loop with its error. *)
Lemma launchLoop_spec (todo : nat) :
  forall (i : nat) (t : trace), i + todo = retries ->
  exists s,
    snd (launchLoop env execPath retries i todo t) = (t ++ s)%list /\
    launchCount s <= todo /\
    (0 < todo -> exists r rest, s = tried r :: rest) /\
    (todo = 0 -> s = [] /\ fst (launchLoop env execPath retries i todo t) = Return None) /\
    (forall pre b post, s = (pre ++ tried (Return b) :: post)%list ->
       post = [] /\ fst (launchLoop env execPath retries i todo t) = Return (Some b)) /\
    (forall pre err post, s = (pre ++ tried (Throw err) :: post)%list ->
       if isTransient err && (i + launchCount pre + 1 <? retries)%nat
       then exists r rest,
              post = retryWarning (i + launchCount pre) :: Timeout 200 :: tried r :: rest
       else post = [] /\ fst (launchLoop env execPath retries i todo t) = Throw err).
Proof.
  induction todo as [| todo IH]; intros i t Hi.
  - exists []. simpl. rewrite app_nil_r.
    split; [reflexivity |]. split; [lia |]. split; [lia |].
    split; [intros _; split; reflexivity |].
    split.
    + intros pre b post H. destruct pre; discriminate H.
    + intros pre err post H. destruct pre; discriminate H.
  - rewrite launchLoop_step. cbv zeta.
    destruct (puppeteer_launch env t (isProduction env) execPath) as [b0 | err0] eqn:Hr.
    + exists [tried (Return b0)]. simpl.
      split; [reflexivity |]. split; [unfold tried; simpl; lia |].
      split; [intros _; eexists; eexists; reflexivity |].
      split; [discriminate |].
      split.
      * intros pre b post H. destruct pre as [| x pre']; simpl in H.
        -- unfold tried in H. injection H as Hb Hpost. subst. split; reflexivity.
        -- injection H as _ H. destruct pre'; discriminate H.
      * intros pre err post H. destruct pre as [| x pre']; simpl in H.
        -- unfold tried in H. discriminate H.
        -- injection H as _ H. destruct pre'; discriminate H.
    + destruct ((i <? retries - 1)%nat && isTransient err0) eqn:Hretry.
      * apply andb_prop in Hretry. destruct Hretry as [Hlt Htr].
        apply Nat.ltb_lt in Hlt.
        destruct (IH (i + 1) (t ++ [tried (Throw err0); retryWarning i; Timeout 200])%list)
          as (s & Hs & Hcount & Hfirst & _ & Hok & Herr); [lia |].
        exists (tried (Throw err0) :: retryWarning i :: Timeout 200 :: s).
        split; [rewrite Hs, <- app_assoc; reflexivity |].
        split; [unfold tried, retryWarning; simpl; lia |].
        split; [intros _; eexists; eexists; reflexivity |].
        split; [discriminate |].
        split.
        -- intros pre b post H.
           destruct pre as [| x1 pre1]; simpl in H; [unfold tried in H; discriminate H |].
           injection H as _ H.
           destruct pre1 as [| x2 pre2]; simpl in H; [unfold tried, retryWarning in H; discriminate H |].
           injection H as _ H.
           destruct pre2 as [| x3 pre3]; simpl in H; [unfold tried in H; discriminate H |].
           injection H as _ H.
           exact (Hok pre3 b post H).
        -- intros pre err post H.
           destruct pre as [| x1 pre1]; simpl in H.
           ++ unfold tried in H. injection H as Herr0 Hpost. subst err post.
              rewrite Htr. simpl.
              replace (i + 0 + 1 <? retries)%nat with true
                by (symmetry; apply Nat.ltb_lt; lia).
              destruct Hfirst as (r & rest & Hrest); [lia |].
              exists r, rest. rewrite Hrest, Nat.add_0_r. reflexivity.
           ++ injection H as Hx1 H. subst x1.
              destruct pre1 as [| x2 pre2]; simpl in H;
                [unfold tried, retryWarning in H; discriminate H |].
              injection H as Hx2 H. subst x2.
              destruct pre2 as [| x3 pre3]; simpl in H; [unfold tried in H; discriminate H |].
              injection H as Hx3 H. subst x3.
              specialize (Herr pre3 err post H).
              unfold tried, retryWarning at 1. simpl launchCount.
              replace (i + S (launchCount pre3)) with (i + 1 + launchCount pre3) by lia.
              exact Herr.
      * exists [tried (Throw err0)]. simpl.
        split; [reflexivity |]. split; [unfold tried; simpl; lia |].
        split; [intros _; eexists; eexists; reflexivity |].
        split; [discriminate |].
        split.
        -- intros pre b post H. destruct pre as [| x pre']; simpl in H.
           ++ unfold tried in H. discriminate H.
           ++ injection H as _ H. destruct pre'; discriminate H.
        -- intros pre err post H. destruct pre as [| x pre']; simpl in H.
           ++ unfold tried in H. injection H as Herr0 Hpost. subst err post.
              simpl. rewrite Nat.add_0_r.
              assert (Hno : isTransient err0 && (i + 1 <? retries)%nat = false).
              { rewrite andb_comm.
                replace (i + 1 <? retries)%nat with (i <? retries - 1)%nat; [exact Hretry |].
                destruct (Nat.ltb_spec i (retries - 1)), (Nat.ltb_spec (i + 1) retries);
                  try reflexivity; lia. }
              rewrite Hno. split; reflexivity.
           ++ injection H as _ H. destruct pre'; discriminate H.
Qed.

(** Every launch of the loop is made in the mode of the process and with
    the path it was given, and its outcome is the answer of
    [puppeteer.launch] to the calls so far. *)
Lemma launchLoop_launches (todo : nat) :
  forall (i : nat) (t : trace),
  exists s,
    snd (launchLoop env execPath retries i todo t) = (t ++ s)%list /\
    (forall p x r, In (Launch p x r) s -> p = isProduction env /\ x = execPath) /\
    (forall pre r post, s = (pre ++ tried r :: post)%list ->
       r = puppeteer_launch env (t ++ pre)%list (isProduction env) execPath).
Proof.
  induction todo as [| todo IH]; intros i t.
  - exists []. simpl. rewrite app_nil_r.
    split; [reflexivity |]. split.
    + intros p x r H. destruct H.
    + intros pre r post H. destruct pre; discriminate H.
  - rewrite launchLoop_step. cbv zeta.
    assert (Hone : forall r0 : outcome Browser,
              r0 = puppeteer_launch env t (isProduction env) execPath ->
              (forall p x r, In (Launch p x r) [tried r0] ->
                 p = isProduction env /\ x = execPath) /\
              (forall pre r post, [tried r0] = (pre ++ tried r :: post)%list ->
                 r = puppeteer_launch env (t ++ pre)%list (isProduction env) execPath)).
    { intros r0 Hr0. split.
      - intros p x r [H | []]. unfold tried, launched in H.
        injection H as Hp Hx _. split; congruence.
      - intros pre r post H. destruct pre as [| x pre']; simpl in H.
        + unfold tried, launched in H. injection H as Hr _.
          rewrite app_nil_r. congruence.
        + injection H as _ H. destruct pre'; discriminate H. }
    destruct (puppeteer_launch env t (isProduction env) execPath) as [b0 | err0] eqn:Hr.
    + exists [tried (Return b0)]. split; [reflexivity |]. apply Hone. reflexivity.
    + destruct ((i <? retries - 1)%nat && isTransient err0).
      * destruct (IH (i + 1) (t ++ [tried (Throw err0); retryWarning i; Timeout 200])%list)
          as (s & Hs & Hsame & Hans).
        exists (tried (Throw err0) :: retryWarning i :: Timeout 200 :: s).
        split; [rewrite Hs, <- app_assoc; reflexivity |].
        split.
        -- intros p x r [H | [H | [H | H]]].
           ++ unfold tried, launched in H. injection H as Hp Hx _. split; congruence.
           ++ unfold retryWarning in H. discriminate H.
           ++ discriminate H.
           ++ exact (Hsame p x r H).
        -- intros pre r post H.
           destruct pre as [| x1 pre1]; simpl in H.
           ++ unfold tried, launched in H. injection H as Hr0 _.
              rewrite app_nil_r. congruence.
           ++ injection H as Hx1 H. subst x1.
              destruct pre1 as [| x2 pre2]; simpl in H;
                [unfold tried, launched, retryWarning in H; discriminate H |].
              injection H as Hx2 H. subst x2.
              destruct pre2 as [| x3 pre3]; simpl in H;
                [unfold tried, launched in H; discriminate H |].
              injection H as Hx3 H. subst x3.
              rewrite (Hans pre3 r post H), <- app_assoc. reflexivity.
      * exists [tried (Throw err0)]. split; [reflexivity |]. apply Hone. reflexivity.
Qed.
End Launch.

(** What [getExecutablePath] adds to a trace belongs to the launch phase. *)
Lemma getExecutablePath_trace (env : Env) (t : trace) :
  exists s, snd (getExecutablePath env t) = (t ++ s)%list /\
            Forall (fun e => launchPhase e = true) s.
Proof.
  unfold getExecutablePath.
  destruct (isProduction env).
  - eexists. split; [reflexivity |]. repeat constructor.
  - exists []. rewrite app_nil_r.
    destruct (truthy (PUPPETEER_EXECUTABLE_PATH env)); [split; [reflexivity | constructor] |].
    destruct (find (existsSync env) paths); split; try reflexivity; constructor.
Qed.

Lemma launchLoop_trace (env : Env) (execPath : string) (retries todo : nat) :
  forall (i : nat) (t : trace),
  exists s, snd (launchLoop env execPath retries i todo t) = (t ++ s)%list /\
            Forall (fun e => launchPhase e = true) s.
Proof.
  induction todo as [| todo IH]; intros i t.
  - exists []. rewrite app_nil_r. split; [reflexivity | constructor].
  - rewrite launchLoop_step. cbv zeta.
    destruct (puppeteer_launch env t (isProduction env) execPath) as [b | err].
    + eexists. split; [reflexivity |]. repeat constructor.
    + destruct ((i <? retries - 1)%nat && isTransient err).
      * destruct (IH (i + 1)
                    (t ++ [launched env execPath (Throw err); retryWarning i; Timeout 200])%list)
          as (s & Hs & Hall).
        exists (launched env execPath (Throw err) :: retryWarning i :: Timeout 200 :: s).
        split; [rewrite Hs, <- app_assoc; reflexivity |].
        repeat (constructor; [reflexivity |]). exact Hall.
      * eexists. split; [reflexivity |]. repeat constructor.
Qed.

Lemma baseLaunchBrowser_trace (env : Env) (retries : nat) (t : trace) :
  exists s, snd (baseLaunchBrowser env retries t) = (t ++ s)%list /\
            Forall (fun e => launchPhase e = true) s.
Proof.
  unfold baseLaunchBrowser, bind.
  destruct (getExecutablePath_trace env t) as (s0 & Hs0 & Hall0).
  destruct (getExecutablePath env t) as [[execPath | e] t0]; simpl in Hs0; subst t0.
  - destruct (launchLoop_trace env execPath retries retries 0 (t ++ s0)%list)
      as (s & Hs & Hall).
    exists (s0 ++ s)%list. split; [rewrite Hs, app_assoc; reflexivity |].
    apply Forall_app. split; assumption.
  - exists s0. split; [reflexivity | exact Hall0].
Qed.

(** C2. [baseLaunchBrowser()] runs with three tries. Once the executable is
    resolved, what it does starts with a launch attempt, and it makes at
    most three. Every attempt is made with the resolved path in the mode of
    the process, and its outcome is the answer of [puppeteer.launch]. An
    attempt that returns ends the launch with its browser. An attempt that
    fails on a transient cause (code ETXTBSY, or ETXTBSY in the message)
    while fewer than three attempts were made is followed by the warning,
    a wait of 200 ms and the next attempt. Every other failed attempt, one
    on a cause that is not transient or the third one, is the last event,
    and its error is raised to the caller. *)
Theorem baseLaunchBrowser_retry (env : Env) (t t0 : trace) (execPath : string) :
  getExecutablePath env t = (Return execPath, t0) ->
  let run := baseLaunchBrowser env defaultRetries t in
  exists s,
    snd run = (t0 ++ s)%list /\
    1 <= launchCount s <= 3 /\
    (exists r rest, s = launched env execPath r :: rest) /\
    (forall p x r, In (Launch p x r) s -> p = isProduction env /\ x = execPath) /\
    (forall pre r post,
       s = (pre ++ launched env execPath r :: post)%list ->
       r = puppeteer_launch env (t0 ++ pre)%list (isProduction env) execPath) /\
    (forall pre b post,
       s = (pre ++ launched env execPath (Return b) :: post)%list ->
       post = [] /\ fst run = Return (Some b)) /\
    (forall pre err post,
       s = (pre ++ launched env execPath (Throw err) :: post)%list ->
       if isTransient err && (launchCount pre + 1 <? 3)%nat
       then exists r rest,
              post = retryWarning (launchCount pre) :: Timeout 200
                     :: launched env execPath r :: rest
       else post = [] /\ fst run = Throw err).
Proof.
  intros Hpath run. unfold run, baseLaunchBrowser, bind. rewrite Hpath.
  destruct (launchLoop_spec env execPath defaultRetries defaultRetries 0 t0 eq_refl)
    as (s & Hs & Hcount & Hfirst & _ & Hok & Herr).
  destruct (launchLoop_launches env execPath defaultRetries defaultRetries 0 t0)
    as (s' & Hs' & Hsame & Hans).
  assert (Heq : s' = s) by (apply (app_inv_head t0); congruence). subst s'.
  exists s. split; [exact Hs |].
  destruct Hfirst as (r & rest & Hrest); [unfold defaultRetries; lia |].
  split.
  - subst s. unfold launched in *. simpl in *. unfold defaultRetries in Hcount. lia.
  - split; [exists r, rest; exact Hrest |].
    split; [exact Hsame |]. split; [exact Hans |].
    split; [exact Hok | exact Herr].
Qed.

(** Scenario D: two launches fail on ETXTBSY and the third returns. *)
Lemma baseLaunchBrowser_retry_witness :
  let env := busyEnv 2 in
  let execPath := "/usr/bin/google-chrome"%string in
  let run := baseLaunchBrowser env defaultRetries [] in
  exists s,
    snd run = ([] ++ s)%list /\
    1 <= launchCount s <= 3 /\
    (exists r rest, s = launched env execPath r :: rest) /\
    (forall p x r, In (Launch p x r) s -> p = isProduction env /\ x = execPath) /\
    (forall pre r post,
       s = (pre ++ launched env execPath r :: post)%list ->
       r = puppeteer_launch env ([] ++ pre)%list (isProduction env) execPath) /\
    (forall pre b post,
       s = (pre ++ launched env execPath (Return b) :: post)%list ->
       post = [] /\ fst run = Return (Some b)) /\
    (forall pre err post,
       s = (pre ++ launched env execPath (Throw err) :: post)%list ->
       if isTransient err && (launchCount pre + 1 <? 3)%nat
       then exists r rest,
              post = retryWarning (launchCount pre) :: Timeout 200
                     :: launched env execPath r :: rest
       else post = [] /\ fst run = Throw err).
Proof.
  exact (baseLaunchBrowser_retry (busyEnv 2) [] [] "/usr/bin/google-chrome" eq_refl).
Defined.

(** Scenario D, run: exactly three attempts, two warnings, two waits, and
    the browser of the third attempt; and three transient failures in a row
    raise the third error. *)
Example baseLaunchBrowser_scenarioD :
  baseLaunchBrowser (busyEnv 2) defaultRetries [] =
  (Return (Some 1),
   [ launched (busyEnv 2) "/usr/bin/google-chrome" (Throw textFileBusy);
     retryWarning 0; Timeout 200;
     launched (busyEnv 2) "/usr/bin/google-chrome" (Throw textFileBusy);
     retryWarning 1; Timeout 200;
     launched (busyEnv 2) "/usr/bin/google-chrome" (Return 1) ]) /\
  fst (baseLaunchBrowser (busyEnv 3) defaultRetries []) = Throw textFileBusy /\
  launchCount (snd (baseLaunchBrowser (busyEnv 3) defaultRetries [])) = 3.
Proof. repeat split; vm_compute; reflexivity. Qed.

(* ================================================================= *)
(** ** Printing a report *)

Local Open Scope list_scope.

Lemma generateResultPdf_printPdf (env : Env) (data : JobData) :
  generateResultPdf env data
  = printPdf env (ResultHtml (resultDocument data)) "Puppeteer Launch Error:".
Proof. reflexivity. Qed.

Lemma generateAttendancePdf_printPdf (env : Env) (data : JobData) :
  generateAttendancePdf env data
  = printPdf env (AttendanceHtml (attendanceDocument data))
             "Puppeteer Launch Error (Attendance):".
Proof. reflexivity. Qed.

(** The launch phase closes no browser, sends no mail and touches no page. *)
Lemma launchPhase_quiet (s : trace) :
  Forall (fun e => launchPhase e = true) s ->
  sendCalls s = [] /\ sent s = [] /\ (forall b, closeCount b s = 0) /\
  forall s', renderError (s ++ s') = renderError s'.
Proof.
  induction 1 as [| e s He Hall IH]; simpl.
  - repeat split; reflexivity.
  - destruct IH as (H1 & H2 & H3 & H4).
    destruct e; simpl in He; try discriminate He; simpl; repeat split; auto.
Qed.

Section PrintPdf.
Variable env : Env.
Variable html : Html.
Variable label : string.

(** The run of [printPdf] after a launch that returned the browser [b]. *)
Lemma printPdf_launched (t t1 : trace) (b : Browser) :
  baseLaunchBrowser env defaultRetries t = (Return (Some b), t1) ->
  exists render rc,
    snd (printPdf env html label t) = (t1 ++ render ++ [Close b rc])%list /\
    closeCount b render = 0 /\
    sendCalls render = [] /\
    (forall e', rc = Throw e' -> fst (printPdf env html label t) = Throw e') /\
    (forall e, rc = Return tt -> renderError render = Some e ->
               fst (printPdf env html label t) = Throw e) /\
    (rc = Return tt -> renderError render = None ->
     exists page pdf, In (Pdf page (Return pdf)) render /\
                      fst (printPdf env html label t) = Return pdf).
Proof.
  intros Hlaunch.
  unfold printPdf, bind, attempt. rewrite Hlaunch.
  unfold try_catch_finally, try_finally, try_catch, bind, call, console, emit, ret, throw.
  destruct (browser_newPage env t1 b) as [page | e1] eqn:Hpage.
  - destruct (page_setContent env (t1 ++ [NewPage b (Return page)]) page html)
      as [u | e2] eqn:Hcontent.
    + destruct (page_pdf env ((t1 ++ [NewPage b (Return page)])
                              ++ [SetContent page html (Return u)]) page)
        as [pdf | e3] eqn:Hpdf.
      * match goal with
        | |- context [browser_close env ?tr b] =>
            exists [NewPage b (Return page); SetContent page html (Return u);
                    Pdf page (Return pdf)], (browser_close env tr b);
            destruct (browser_close env tr b) as [[] | e'] eqn:Hclose
        end; simpl; rewrite <- !app_assoc; simpl;
          (split; [reflexivity |]); (split; [reflexivity |]); (split; [reflexivity |]).
        -- split; [intros e' H; discriminate H |].
           split; [intros e _ H; discriminate H |].
           intros _ _. exists page, pdf. split; [| reflexivity].
           right. right. left. reflexivity.
        -- split; [intros e'' H; injection H as H; subst; reflexivity |].
           split; [intros e H; discriminate H |]. intros H; discriminate H.
      * match goal with
        | |- context [browser_close env ?tr b] =>
            exists [NewPage b (Return page); SetContent page html (Return u);
                    Pdf page (Throw e3); Console error label (Some e3)],
                   (browser_close env tr b);
            destruct (browser_close env tr b) as [[] | e'] eqn:Hclose
        end; simpl; rewrite <- !app_assoc; simpl;
          (split; [reflexivity |]); (split; [reflexivity |]); (split; [reflexivity |]).
        -- split; [intros e' H; discriminate H |].
           split; [intros e _ H; injection H as H; subst; reflexivity |].
           intros _ H; discriminate H.
        -- split; [intros e'' H; injection H as H; subst; reflexivity |].
           split; [intros e H; discriminate H |]. intros H; discriminate H.
    + match goal with
      | |- context [browser_close env ?tr b] =>
          exists [NewPage b (Return page); SetContent page html (Throw e2);
                  Console error label (Some e2)],
                 (browser_close env tr b);
          destruct (browser_close env tr b) as [[] | e'] eqn:Hclose
      end; simpl; rewrite <- !app_assoc; simpl;
        (split; [reflexivity |]); (split; [reflexivity |]); (split; [reflexivity |]).
      * split; [intros e' H; discriminate H |].
        split; [intros e _ H; injection H as H; subst; reflexivity |].
        intros _ H; discriminate H.
      * split; [intros e'' H; injection H as H; subst; reflexivity |].
        split; [intros e H; discriminate H |]. intros H; discriminate H.
  - match goal with
    | |- context [browser_close env ?tr b] =>
        exists [NewPage b (Throw e1); Console error label (Some e1)],
               (browser_close env tr b);
        destruct (browser_close env tr b) as [[] | e'] eqn:Hclose
    end; simpl; rewrite <- !app_assoc; simpl;
      (split; [reflexivity |]); (split; [reflexivity |]); (split; [reflexivity |]).
    + split; [intros e' H; discriminate H |].
      split; [intros e _ H; injection H as H; subst; reflexivity |].
      intros _ H; discriminate H.
    + split; [intros e'' H; injection H as H; subst; reflexivity |].
      split; [intros e H; discriminate H |]. intros H; discriminate H.
Qed.

(** [printPdf] hands nothing to the mail transport. *)
Lemma printPdf_no_mail (t : trace) :
  exists s, snd (printPdf env html label t) = (t ++ s)%list /\
            sendCalls s = [] /\ sent s = [].
Proof.
  destruct (baseLaunchBrowser_trace env defaultRetries t) as (s0 & Hs0 & Hall).
  destruct (launchPhase_quiet s0 Hall) as (Hcalls & Hsent & _ & _).
  destruct (baseLaunchBrowser env defaultRetries t) as [[[b |] | e] t1] eqn:Hlaunch;
    simpl in Hs0; subst t1.
  - destruct (printPdf_launched t _ b Hlaunch) as (render & rc & Hs & _ & Hmail & _).
    exists (s0 ++ render ++ [Close b rc])%list.
    split; [rewrite Hs, <- app_assoc; reflexivity |].
    rewrite !sendCalls_app, !sent_app, Hcalls, Hsent, Hmail. simpl.
    split; [reflexivity |].
    clear - Hmail. induction render as [| x render IH]; simpl in *.
    + reflexivity.
    + destruct x; simpl in *; try discriminate Hmail; auto.
  - exists (s0 ++ [Console error label (Some (Error "Failed to launch browser"))])%list.
    unfold printPdf, bind, attempt. rewrite Hlaunch. simpl.
    rewrite sendCalls_app, sent_app, Hcalls, Hsent, <- app_assoc.
    repeat split; reflexivity.
  - exists (s0 ++ [Console error label (Some e)])%list.
    unfold printPdf, bind, attempt. rewrite Hlaunch. simpl.
    rewrite sendCalls_app, sent_app, Hcalls, Hsent, <- app_assoc.
    repeat split; reflexivity.
Qed.

Lemma printPdf_releasesOnce : releasesOnce env (fun _ => printPdf env html label).
Proof.
  intros data t t1 b Hlaunch.
  destruct (baseLaunchBrowser_trace env defaultRetries t) as (s0 & Hs0 & Hall).
  rewrite Hlaunch in Hs0. simpl in Hs0. subst t1.
  destruct (launchPhase_quiet s0 Hall) as (_ & _ & Hclose0 & Hrender0).
  destruct (printPdf_launched t _ b Hlaunch)
    as (render & rc & Hs & Hclose & _ & Hrc & Herr & Hok).
  exists (s0 ++ render)%list, rc.
  split; [rewrite Hs, <- !app_assoc; reflexivity |].
  split.
  { rewrite !closeCount_app, Hclose0, Hclose. simpl. rewrite Nat.eqb_refl. reflexivity. }
  split; [exact Hrc |].
  split.
  - intros e Hret Hre. rewrite Hrender0 in Hre. exact (Herr e Hret Hre).
  - intros Hret Hre. rewrite Hrender0 in Hre.
    destruct (Hok Hret Hre) as (page & pdf & Hin & Hres).
    exists page, pdf. split; [| exact Hres]. apply in_or_app. right. exact Hin.
Qed.
End PrintPdf.

(** C1, as stated, fails where it has the error of a page call reach the
    caller whatever the release does. The page rejects the markup and
    [browser.close()] raises in the [finally] block: the browser is closed
    once, and the caller gets the error of the release, not the one raised
    while rendering. *)
Lemma render_error_replaced_by_close_error :
  let run := generateResultPdf brokenBrowserEnv (sampleData "RESULTS" scenarioA []) [] in
  fst (baseLaunchBrowser brokenBrowserEnv defaultRetries []) = Return (Some 1) /\
  renderError (snd run) = Some navigationFailed /\
  closeCount 1 (snd run) = 1 /\
  fst run = Throw connectionClosed /\
  fst run <> Throw navigationFailed.
Proof.
  cbv zeta.
  split; [vm_compute; reflexivity |].
  split; [vm_compute; reflexivity |].
  split; [vm_compute; reflexivity |].
  assert (H : fst (generateResultPdf brokenBrowserEnv (sampleData "RESULTS" scenarioA []) [])
              = Throw connectionClosed) by (vm_compute; reflexivity).
  split; [exact H |]. rewrite H. discriminate.
Qed.

(** C1, amended. Whenever the launch returns a browser, [generateResultPdf]
    and [generateAttendancePdf] call [browser.close()] on it exactly once,
    as their last call, on the success path and on every failing one. When
    a page call (newPage, setContent, pdf) raised, the operation fails after
    the release: with that error when the release returns, and with the
    error of the release when the release itself raises. *)
Theorem browser_released_once (env : Env) :
  releasesOnce env (generateResultPdf env) /\
  releasesOnce env (generateAttendancePdf env).
Proof.
  split; intros data t t1 b Hlaunch.
  - exact (printPdf_releasesOnce env (ResultHtml (resultDocument data))
             "Puppeteer Launch Error:"%string data t t1 b Hlaunch).
  - exact (printPdf_releasesOnce env (AttendanceHtml (attendanceDocument data))
             "Puppeteer Launch Error (Attendance):"%string data t t1 b Hlaunch).
Qed.

Lemma browser_released_once_witness :
  let data := sampleData "RESULTS" scenarioA [] in
  baseLaunchBrowser idealEnv defaultRetries []
  = (Return (Some 1), [launched idealEnv "/usr/bin/google-chrome" (Return 1)]) /\
  exists s rc,
    snd (generateResultPdf idealEnv data []) = [] ++ s ++ [Close 1 rc] /\
    closeCount 1 (s ++ [Close 1 rc]) = 1 /\
    (forall e', rc = Throw e' -> fst (generateResultPdf idealEnv data []) = Throw e') /\
    (forall e, rc = Return tt -> renderError s = Some e ->
               fst (generateResultPdf idealEnv data []) = Throw e) /\
    (rc = Return tt -> renderError s = None ->
     exists page pdf, In (Pdf page (Return pdf)) s /\
                      fst (generateResultPdf idealEnv data []) = Return pdf).
Proof.
  split; [reflexivity |].
  exact (proj1 (browser_released_once idealEnv) (sampleData "RESULTS" scenarioA []) []
               [launched idealEnv "/usr/bin/google-chrome" (Return 1)] 1 eq_refl).
Defined.

(* ================================================================= *)
(** ** Report jobs *)

Section ReportBranch.
Variable env : Env.
Variable generate : M Buffer.
Variable message : Buffer -> Message.
Variable done : string.
Variable failed : JsError -> string.

Lemma reportBranch_spec (t0 : trace) :
  (exists s, snd (generate t0) = t0 ++ s /\ sendCalls s = [] /\ sent s = []) ->
  exists s,
    snd (reportBranch env generate message done failed t0) = t0 ++ s /\
    (fst (reportBranch env generate message done failed t0) = Return tt ->
     exists pdf, fst (generate t0) = Return pdf /\
                 sendCalls s = [message pdf] /\ sent s = [message pdf]) /\
    (forall e, fst (generate t0) = Throw e ->
               sendCalls s = [] /\ fst (reportBranch env generate message done failed t0) = Throw e) /\
    (forall pdf e, fst (generate t0) = Return pdf ->
                   transporter_sendMail env (snd (generate t0)) (message pdf) = Throw e ->
                   fst (reportBranch env generate message done failed t0) = Throw e) /\
    (forall e, fst (reportBranch env generate message done failed t0) = Throw e ->
               sent s = [] /\ exists pre, s = pre ++ [Console error (failed e) None]).
Proof.
  intros (s0 & Hs0 & Hcalls & Hsent).
  unfold reportBranch, try_catch, bind, sendMail, call, console, emit, throw.
  destruct (generate t0) as [[pdf | e0] t1]; simpl in Hs0; subst t1; simpl.
  - destruct (transporter_sendMail env (t0 ++ s0) (message pdf)) as [[] | e1] eqn:Hsend; simpl.
    + exists (s0 ++ [SendMail (message pdf) (Return tt); Console log done None]).
      split; [rewrite <- !app_assoc; reflexivity |].
      rewrite sendCalls_app, sent_app, Hcalls, Hsent. simpl.
      split; [intros _; exists pdf; repeat split; reflexivity |].
      split; [intros e H; discriminate H |].
      split.
      * intros pdf' e Hpdf H. injection Hpdf as Hpdf. subst pdf'.
        rewrite Hsend in H. discriminate H.
      * intros e H; discriminate H.
    + exists (s0 ++ [SendMail (message pdf) (Throw e1); Console error (failed e1) None]).
      split; [rewrite <- !app_assoc; reflexivity |].
      rewrite sendCalls_app, sent_app, Hcalls, Hsent. simpl.
      split; [intros H; discriminate H |].
      split; [intros e H; discriminate H |].
      split.
      * intros pdf' e Hpdf H. injection Hpdf as Hpdf. subst pdf'.
        rewrite Hsend in H. injection H as H. subst. reflexivity.
      * intros e H. injection H as H. subst e1. split; [reflexivity |].
        exists (s0 ++ [SendMail (message pdf) (Throw e)]).
        rewrite <- app_assoc. reflexivity.
  - exists (s0 ++ [Console error (failed e0) None]).
    split; [rewrite <- !app_assoc; reflexivity |].
    rewrite sendCalls_app, sent_app, Hcalls, Hsent. simpl.
    split; [intros H; discriminate H |].
    split; [intros e H; injection H as H; subst; split; reflexivity |].
    split; [intros pdf e H; discriminate H |].
    intros e H. injection H as H. subst e0. split; [reflexivity |].
    exists s0. reflexivity.
Qed.
End ReportBranch.

(** C3. For a RESULTS or ATTENDANCE_REPORT job: when the handler returns,
    exactly one message, with the PDF attached, was handed to the mail
    transport and accepted; when PDF generation raises, nothing is handed to
    the transport and the handler raises the same error; when the transport
    raises, the handler raises that error; and whenever the handler raises,
    no message was accepted and its last act was to log the failure with the
    recipient of the job and the message of the error it raises. *)
Theorem report_job_all_or_nothing (env : Env) (job : Job) (t : trace)
    (generate : M Buffer) (message : Buffer -> Message) (label : string) :
  reportJob env (job_data job) generate message label ->
  let data := job_data job in
  let t0 := t ++ [Console log ("Processing job " ++ job_id job ++ ": " ++ job_name job)%string None] in
  let failure := fun e =>
    Console error ("Failed to generate/send " ++ label ++ " PDF for " ++ recipient data
                   ++ ": " ++ err_message e)%string None in
  let run := worker env job t in
  exists s,
    snd run = t0 ++ s /\
    (fst run = Return tt ->
     exists pdf, fst (generate t0) = Return pdf /\
                 sendCalls s = [message pdf] /\ sent s = [message pdf]) /\
    (forall e, fst (generate t0) = Throw e -> sendCalls s = [] /\ fst run = Throw e) /\
    (forall pdf e, fst (generate t0) = Return pdf ->
                   transporter_sendMail env (snd (generate t0)) (message pdf) = Throw e ->
                   fst run = Throw e) /\
    (forall e, fst run = Throw e -> sent s = [] /\ exists pre, s = pre ++ [failure e]).
Proof.
  intros Hjob data t0 failure run.
  assert (Hmail : exists s, snd (generate t0) = t0 ++ s /\ sendCalls s = [] /\ sent s = []).
  { destruct Hjob as [(_ & Hg & _) | (_ & Hg & _)]; rewrite Hg; apply printPdf_no_mail. }
  assert (Hrun : run = reportBranch env generate message
                         (match label with
                          | "Result" => "Result Email with PDF sent to " ++ recipient data
                          | _ => "Attendance Email with PDF sent to " ++ recipient data
                          end)%string
                         (fun e => ("Failed to generate/send " ++ label ++ " PDF for "
                                    ++ recipient data ++ ": " ++ err_message e)%string) t0).
  { unfold run, worker, bind, console, emit. fold data. fold t0.
    destruct Hjob as [(Ht & Hg & Hm & Hl) | (Ht & Hg & Hm & Hl)];
      fold data in Ht; rewrite Ht, Hg, Hm, Hl; reflexivity. }
  rewrite Hrun. apply reportBranch_spec. exact Hmail.
Qed.

Lemma report_job_all_or_nothing_witness :
  let data := sampleData "RESULTS" scenarioA [] in
  let job := sampleJob data in
  let t0 := [Console log "Processing job 42: notify" None] in
  let run := worker idealEnv job [] in
  exists s,
    snd run = t0 ++ s /\
    (fst run = Return tt ->
     exists pdf, fst (generateResultPdf idealEnv data t0) = Return pdf /\
                 sendCalls s = [resultMessage data pdf] /\
                 sent s = [resultMessage data pdf]) /\
    (forall e, fst (generateResultPdf idealEnv data t0) = Throw e ->
               sendCalls s = [] /\ fst run = Throw e) /\
    (forall pdf e, fst (generateResultPdf idealEnv data t0) = Return pdf ->
                   transporter_sendMail idealEnv (snd (generateResultPdf idealEnv data t0))
                     (resultMessage data pdf) = Throw e ->
                   fst run = Throw e) /\
    (forall e, fst run = Throw e ->
               sent s = [] /\
               exists pre, s = pre ++ [Console error
                 ("Failed to generate/send Result PDF for student@example.org: "
                  ++ err_message e)%string None]).
Proof.
  exact (report_job_all_or_nothing idealEnv (sampleJob (sampleData "RESULTS" scenarioA [])) []
           (generateResultPdf idealEnv (sampleData "RESULTS" scenarioA []))
           (resultMessage (sampleData "RESULTS" scenarioA [])) "Result"%string
           (or_introl (conj eq_refl (conj eq_refl (conj eq_refl eq_refl))))).
Defined.

(* ================================================================= *)
(** ** The matcher finds what the patterns mean *)

Local Open Scope string_scope.

Lemma append_nil_r (s : string) : s ++ "" = s.
Proof. induction s as [| c s IH]; simpl; [| rewrite IH]; reflexivity. Qed.

Lemma append_assoc (s1 s2 s3 : string) : (s1 ++ s2) ++ s3 = s1 ++ s2 ++ s3.
Proof. induction s1 as [| c s1 IH]; simpl; [| rewrite IH]; reflexivity. Qed.

Lemma length_append (s1 s2 : string) :
  String.length (s1 ++ s2) = String.length s1 + String.length s2.
Proof. induction s1 as [| c s1 IH]; simpl; [| rewrite IH]; reflexivity. Qed.

Lemma substring_prefix (w s : string) : substring 0 (String.length w) (w ++ s) = w.
Proof.
  induction w as [| c w IH]; simpl.
  - destruct s; reflexivity.
  - rewrite IH. reflexivity.
Qed.

Section Matcher.
Context {R : Type}.
Implicit Types (k : @cont R) (r : regex).

Lemma plus_more_sound (cls : ascii -> bool) (s : string) :
  forall i caps k x,
    plus_more cls i s caps k = Some x ->
    exists w s', s = w ++ s' /\ all_chars cls w = true /\
                 k (i + String.length w) s' caps = Some x.
Proof.
  induction s as [| c s IH]; intros i caps k x H; simpl in H.
  - exists "", "". rewrite Nat.add_0_r. repeat split. exact H.
  - destruct (cls c) eqn:Hc.
    + destruct (plus_more cls (S i) s caps k) as [y |] eqn:Hmore.
      * injection H as H. subst y.
        destruct (IH _ _ _ _ Hmore) as (w & s' & Hs & Hall & Hk).
        exists (String c w), s'. simpl. rewrite Hc, Hall, Hs.
        repeat split. rewrite <- Hk. f_equal. lia.
      * exists "", (String c s). rewrite Nat.add_0_r. repeat split. exact H.
    + exists "", (String c s). rewrite Nat.add_0_r. repeat split. exact H.
Qed.

Lemma plus_more_complete (cls : ascii -> bool) (s : string) :
  forall i caps k,
    plus_more cls i s caps k = None ->
    forall w s', s = w ++ s' -> all_chars cls w = true ->
                 k (i + String.length w) s' caps = None.
Proof.
  induction s as [| c s IH]; intros i caps k H w s' Hs Hall; simpl in H.
  - destruct w; [| discriminate Hs]. simpl in Hs. subst s'.
    rewrite Nat.add_0_r. exact H.
  - destruct w as [| c' w].
    + simpl in Hs. subst s'. rewrite Nat.add_0_r.
      destruct (cls c); [| exact H].
      destruct (plus_more cls (S i) s caps k); [discriminate H | exact H].
    + simpl in Hs. injection Hs as Hc Hs. subst c'.
      simpl in Hall. apply andb_prop in Hall. destruct Hall as [Hc Hall].
      rewrite Hc in H.
      destruct (plus_more cls (S i) s caps k) eqn:Hmore; [discriminate H |].
      simpl. replace (i + S (String.length w)) with (S i + String.length w) by lia.
      exact (IH _ _ _ Hmore w s' Hs Hall).
Qed.

(** Whatever the matcher hands to its continuation is a match. *)
Lemma exec_sound r :
  forall i s caps k x,
    exec r i s caps k = Some x ->
    exists w s' c, s = w ++ s' /\ matches r i w c /\
                   k (i + String.length w) s' (caps ++ c)%list = Some x.
Proof.
  induction r as [| | cls | r1 IH1 r2 IH2 | r IH | cls | r IH];
    intros i s caps k x H; simpl in H.
  - exists "", s, []. rewrite Nat.add_0_r, app_nil_r.
    repeat split; [constructor | exact H].
  - destruct i; [| discriminate H].
    exists "", s, []. rewrite app_nil_r. repeat split; [constructor | exact H].
  - destruct s as [| c s]; [discriminate H |].
    destruct (cls c) eqn:Hc; [| discriminate H].
    exists (String c ""), s, []. rewrite app_nil_r. simpl.
    repeat split; [constructor; exact Hc |]. rewrite Nat.add_1_r. exact H.
  - destruct (IH1 _ _ _ _ _ H) as (w1 & s1 & c1 & Hs1 & Hm1 & H1).
    destruct (IH2 _ _ _ _ _ H1) as (w2 & s2 & c2 & Hs2 & Hm2 & H2).
    exists (w1 ++ w2), s2, (c1 ++ c2)%list.
    rewrite append_assoc, <- Hs2, <- Hs1, length_append, Nat.add_assoc, app_assoc.
    repeat split; [constructor; assumption | exact H2].
  - destruct (exec r i s caps k) as [y |] eqn:Hr.
    + injection H as H. subst y.
      destruct (IH _ _ _ _ _ Hr) as (w & s' & c & Hs & Hm & Hk).
      exists w, s', c. repeat split; [exact Hs | constructor; exact Hm | exact Hk].
    + exists "", s, []. rewrite Nat.add_0_r, app_nil_r.
      repeat split; [apply matches_skipped | exact H].
  - destruct s as [| c s]; [discriminate H |].
    destruct (cls c) eqn:Hc; [| discriminate H].
    destruct (plus_more_sound _ _ _ _ _ _ H) as (w & s' & Hs & Hall & Hk).
    exists (String c w), s', []. rewrite app_nil_r. simpl. rewrite Hs.
    repeat split; [constructor; assumption |].
    rewrite <- Hk. f_equal. lia.
  - destruct (IH _ _ _ _ _ H) as (w & s' & c & Hs & Hm & Hk).
    exists w, s', (c ++ [w])%list.
    repeat split; [exact Hs | constructor; exact Hm |].
    rewrite app_assoc, <- Hk.
    replace (i + String.length w - i) with (String.length w) by lia.
    rewrite Hs, substring_prefix. reflexivity.
Qed.

(** When the matcher fails, every match is refused by the continuation. *)
Lemma exec_complete r :
  forall i s caps k,
    exec r i s caps k = None ->
    forall w s' c, s = w ++ s' -> matches r i w c ->
                   k (i + String.length w) s' (caps ++ c)%list = None.
Proof.
  induction r as [| | cls | r1 IH1 r2 IH2 | r IH | cls | r IH];
    intros i s caps k H w s' c Hs Hm; simpl in H; inversion Hm; subst; clear Hm.
  - simpl. rewrite Nat.add_0_r, app_nil_r. exact H.
  - simpl. rewrite app_nil_r. exact H.
  - simpl in *. rewrite app_nil_r, Nat.add_1_r.
    match goal with Hc : cls _ = true |- _ => rewrite Hc in H end. exact H.
  - rewrite append_assoc in H.
    match goal with
    | H1 : matches r1 i ?w1 ?c1, H2 : matches r2 _ ?w2 ?c2 |- _ =>
        pose proof (IH1 _ _ _ _ H w1 (w2 ++ s') c1 eq_refl H1) as Hk;
        pose proof (IH2 _ _ _ _ Hk w2 s' c2 eq_refl H2) as Hk2
    end.
    rewrite length_append, Nat.add_assoc, app_assoc. exact Hk2.
  - destruct (exec r i (w ++ s') caps k) eqn:Hr; [discriminate H |].
    eapply IH; [exact Hr | reflexivity | assumption].
  - simpl in *. rewrite Nat.add_0_r, app_nil_r.
    destruct (exec r i s' caps k); [discriminate H | exact H].
  - simpl in *. rewrite app_nil_r.
    match goal with Hc : cls _ = true |- _ => rewrite Hc in H end.
    match goal with
    | Hall : all_chars cls ?w0 = true |- _ =>
        pose proof (plus_more_complete _ _ _ _ _ H w0 s' eq_refl Hall) as Hk
    end.
    rewrite <- Hk. f_equal. lia.
  - match goal with
    | H1 : matches r i w ?c1 |- _ =>
        pose proof (IH _ _ _ _ H w s' c1 eq_refl H1) as Hk
    end.
    simpl in Hk.
    replace (i + String.length w - i) with (String.length w) in Hk by lia.
    rewrite substring_prefix in Hk. rewrite app_assoc. exact Hk.
Qed.
End Matcher.

Lemma match_at_sound (r : regex) (i : nat) (s : string) (caps : list string) :
  match_at r i s = Some caps ->
  exists w s', s = w ++ s' /\ matches r i w caps.
Proof.
  intros H. destruct (exec_sound r _ _ _ _ _ H) as (w & s' & c & Hs & Hm & Hk).
  injection Hk as Hk. simpl in Hk. subst c. exists w, s'. split; assumption.
Qed.

Lemma match_at_complete (r : regex) (i : nat) (s : string) :
  match_at r i s = None ->
  forall w s' c, s = w ++ s' -> ~ matches r i w c.
Proof.
  intros H w s' c Hs Hm.
  pose proof (exec_complete r _ _ _ _ H w s' c Hs Hm) as Hk. discriminate Hk.
Qed.

(** The search returns a match at the first position that has one. *)
Lemma match_from_sound (r : regex) (s : string) :
  forall i caps,
    match_from r i s = Some caps ->
    exists pre w post,
      s = pre ++ w ++ post /\ matches r (i + String.length pre) w caps /\
      forall pre' w' post' c',
        s = pre' ++ w' ++ post' -> String.length pre' < String.length pre ->
        ~ matches r (i + String.length pre') w' c'.
Proof.
  induction s as [| a s IH]; intros i caps H; simpl in H.
  - destruct (match_at r i "") as [c |] eqn:Hat; [| discriminate H].
    injection H as H. subst c.
    destruct (match_at_sound _ _ _ _ Hat) as (w & s' & Hs & Hm).
    exists "", w, s'. simpl. rewrite Nat.add_0_r.
    repeat split; [exact Hs | exact Hm |]. intros pre' w' post' c' _ Hlt. inversion Hlt.
  - destruct (match_at r i (String a s)) as [c |] eqn:Hat.
    + injection H as H. subst c.
      destruct (match_at_sound _ _ _ _ Hat) as (w & s' & Hs & Hm).
      exists "", w, s'. simpl. rewrite Nat.add_0_r.
      repeat split; [exact Hs | exact Hm |]. intros pre' w' post' c' _ Hlt. inversion Hlt.
    + destruct (IH _ _ H) as (pre & w & post & Hs & Hm & Hfirst).
      exists (String a pre), w, post. simpl.
      split; [rewrite Hs; reflexivity |].
      split; [replace (i + S (String.length pre)) with (S i + String.length pre) by lia;
              exact Hm |].
      intros pre' w' post' c' Hs' Hlt Hm'.
      destruct pre' as [| a' pre'].
      * simpl in Hs', Hm'. rewrite Nat.add_0_r in Hm'.
        exact (match_at_complete _ _ _ Hat w' post' c' Hs' Hm').
      * simpl in Hs', Hlt, Hm'. injection Hs' as _ Hs'.
        apply (Hfirst pre' w' post' c' Hs'); [lia |].
        replace (S i + String.length pre') with (i + S (String.length pre')) by lia.
        exact Hm'.
Qed.

Lemma match_from_complete (r : regex) (s : string) :
  forall i,
    match_from r i s = None ->
    forall pre w post c,
      s = pre ++ w ++ post -> ~ matches r (i + String.length pre) w c.
Proof.
  induction s as [| a s IH]; intros i H pre w post c Hs Hm; simpl in H.
  - destruct (match_at r i "") eqn:Hat; [discriminate H |].
    destruct pre; [| discriminate Hs]. simpl in Hs, Hm. rewrite Nat.add_0_r in Hm.
    exact (match_at_complete _ _ _ Hat w post c Hs Hm).
  - destruct (match_at r i (String a s)) eqn:Hat; [discriminate H |].
    destruct pre as [| a' pre].
    + simpl in Hs, Hm. rewrite Nat.add_0_r in Hm.
      exact (match_at_complete _ _ _ Hat w post c Hs Hm).
    + simpl in Hs, Hm. injection Hs as _ Hs.
      apply (IH _ H pre w post c Hs).
      replace (S i + String.length pre) with (i + S (String.length pre)) by lia.
      exact Hm.
Qed.

(** [s.match(r)] returns the captures of a leftmost match of [r] in [s]. *)
Lemma regex_match_leftmost (r : regex) (s : string) (caps : list string) :
  regex_match s r = Some caps -> exists i, leftmost r s i caps.
Proof.
  intros H. destruct (match_from_sound _ _ _ _ H) as (pre & w & post & Hs & Hm & Hfirst).
  exists (String.length pre). split.
  - exists pre, w, post. repeat split; assumption.
  - intros j caps' Hlt (pre' & w' & post' & Hs' & Hlen & Hm'). subst j.
    exact (Hfirst pre' w' post' caps' Hs' Hlt Hm').
Qed.

(** [s.match(r)] is [null] only when [r] is found nowhere in [s]. *)
Lemma regex_match_null (r : regex) (s : string) :
  regex_match s r = None -> ~ found r s.
Proof.
  intros H (i & caps & pre & w & post & Hs & Hlen & Hm). subst i.
  exact (match_from_complete _ _ _ H pre w post caps Hs Hm).
Qed.

Lemma found_regex_match (r : regex) (s : string) :
  found r s -> exists caps, regex_match s r = Some caps.
Proof.
  intros Hfound. destruct (regex_match s r) as [caps |] eqn:H.
  - exists caps. reflexivity.
  - destruct (regex_match_null _ _ H Hfound).
Qed.

Lemma found_dec (r : regex) (s : string) : found r s \/ ~ found r s.
Proof.
  destruct (regex_match s r) as [caps |] eqn:H.
  - left. destruct (regex_match_leftmost _ _ _ H) as (i & Hocc & _).
    exists i, caps. exact Hocc.
  - right. exact (regex_match_null _ _ H).
Qed.

(** *** The captures of the three patterns *)

Ltac invert_matches :=
  repeat match goal with
         | H : matches (Seq _ _) _ _ _ |- _ => inversion H; subst; clear H
         | H : matches (Group _) _ _ _ |- _ => inversion H; subst; clear H
         | H : matches (Optional _) _ _ _ |- _ => inversion H; subst; clear H
         | H : matches (Chars _) _ _ _ |- _ => inversion H; subst; clear H
         | H : matches (Plus _) _ _ _ |- _ => inversion H; subst; clear H
         | H : matches Bos _ _ _ |- _ => inversion H; subst; clear H
         end.

Lemma year_re_captures (i : nat) (w : string) (caps : list string) :
  matches year_re i w caps ->
  exists y d, caps = [String y ""; String d ""] /\
              one_of_i "EP" y = true /\ range "1" "4" d = true.
Proof.
  unfold year_re. intros H. invert_matches; simpl; eauto.
Qed.

Lemma sem_re_captures (i : nat) (w : string) (caps : list string) :
  matches sem_re i w caps ->
  exists n, caps = [String n ""] /\ range "1" "3" n = true.
Proof.
  unfold sem_re. cbn [lit_i]. intros H. invert_matches; simpl; eauto.
Qed.

Lemma code_re_captures (i : nat) (w : string) (caps : list string) :
  matches code_re i w caps ->
  exists d, caps = [String d ""] /\ range "1" "4" d = true.
Proof.
  unfold code_re. intros H. invert_matches; simpl; eauto.
Qed.

(** *** One match per position *)

(** Digits, separators and the letters of the patterns are apart. *)
Lemma classes_apart (c : ascii) :
  (range "1" "4" c = true -> one_of_i "-_ " c = true -> False) /\
  (range "1" "4" c = true -> one_of "-_ " c = true -> False) /\
  (range "1" "4" c = true -> letter c = true -> False) /\
  (range "1" "3" c = true -> one_of_i "-_ " c = true -> False) /\
  (range "1" "3" c = true -> one_of_i "E" c = true -> False) /\
  (one_of_i "-_ " c = true -> one_of_i "E" c = true -> False) /\
  (one_of "-_ " c = true -> letter c = true -> False).
Proof.
  destruct c as [[] [] [] [] [] [] [] []]; vm_compute; intuition discriminate.
Qed.

Ltac conflict :=
  exfalso;
  match goal with
  | H1 : ?f ?c = true, H2 : ?g ?c = true |- _ =>
      let K := fresh in
      pose proof (classes_apart c) as K; cbv beta in K;
      decompose [and] K; solve [eauto 2]
  end.

Lemma year_re_deterministic : deterministic year_re.
Proof.
  intros i w1 s1 c1 w2 s2 c2 Heq H1 H2. unfold year_re in *.
  invert_matches; cbn [append app] in *; injection Heq as; subst; try reflexivity; conflict.
Qed.

Lemma sem_re_deterministic : deterministic sem_re.
Proof.
  intros i w1 s1 c1 w2 s2 c2 Heq H1 H2. unfold sem_re in *. cbn [lit_i] in *.
  invert_matches; cbn [append app] in *; injection Heq as; subst; try reflexivity; conflict.
Qed.

(** A run of letters ends where the first other character stands. *)
Lemma letters_run (l1 l2 : string) (a1 a2 : ascii) (t1 t2 : string) :
  all_chars letter l1 = true -> all_chars letter l2 = true ->
  letter a1 = false -> letter a2 = false ->
  l1 ++ String a1 t1 = l2 ++ String a2 t2 ->
  a1 = a2 /\ t1 = t2.
Proof.
  revert l2. induction l1 as [| x l1 IH]; intros l2 Hl1 Hl2 Ha1 Ha2 Heq.
  - destruct l2 as [| y l2]; simpl in *.
    + injection Heq as Ha Ht. split; assumption.
    + injection Heq as Ha Ht. subst y.
      apply andb_prop in Hl2. destruct Hl2 as [Hy _]. congruence.
  - destruct l2 as [| y l2]; simpl in *.
    + injection Heq as Ha Ht. subst x.
      apply andb_prop in Hl1. destruct Hl1 as [Hx _]. congruence.
    + injection Heq as _ Heq.
      apply andb_prop in Hl1. destruct Hl1 as [_ Hl1].
      apply andb_prop in Hl2. destruct Hl2 as [_ Hl2].
      exact (IH l2 Hl1 Hl2 Ha1 Ha2 Heq).
Qed.

Lemma not_letter (c : ascii) :
  range "1" "4" c = true \/ one_of "-_ " c = true -> letter c = false.
Proof.
  intros H. destruct (letter c) eqn:Hc; [| reflexivity].
  destruct H; conflict.
Qed.

Lemma code_re_deterministic : deterministic code_re.
Proof.
  intros i w1 s1 c1 w2 s2 c2 Heq H1 H2. unfold code_re in *.
  invert_matches; cbn [append app] in *; rewrite ?append_assoc in Heq;
    cbn [append] in Heq; injection Heq as _ Heq;
    match type of Heq with
    | ?l1 ++ String ?a1 ?t1 = ?l2 ++ String ?a2 ?t2 =>
        destruct (letters_run l1 l2 a1 a2 t1 t2) as [Ha Ht];
          [assumption | assumption
           | apply not_letter; auto | apply not_letter; auto | exact Heq |]
    end; subst; try reflexivity; try (injection Ht as; subst; reflexivity); conflict.
Qed.

(** The captures of the leftmost match are the ones [s.match(r)] returns. *)
Lemma leftmost_regex_match (r : regex) (s : string) (i : nat) (caps : list string) :
  deterministic r -> leftmost r s i caps -> regex_match s r = Some caps.
Proof.
  intros Hdet [Hocc Hfirst].
  destruct (found_regex_match r s) as (caps' & H); [exists i, caps; exact Hocc |].
  rewrite H. f_equal.
  destruct (regex_match_leftmost _ _ _ H) as (i' & Hocc' & Hfirst').
  assert (Hi : i' = i).
  { destruct (Nat.lt_trichotomy i' i) as [Hlt | [Heq | Hgt]]; [| exact Heq |].
    - destruct (Hfirst _ _ Hlt Hocc').
    - destruct (Hfirst' _ _ Hgt Hocc). }
  subst i'.
  destruct Hocc as (pre & w & post & Hs & Hlen & Hm).
  destruct Hocc' as (pre' & w' & post' & Hs' & Hlen' & Hm').
  assert (Hrest : w' ++ post' = w ++ post).
  { rewrite Hs in Hs'. rewrite <- Hlen' in Hlen. clear - Hs' Hlen.
    revert pre' Hs' Hlen. induction pre as [| a pre IH]; intros [| a' pre'] Hs' Hlen;
      simpl in *; try discriminate Hlen.
    - symmetry. exact Hs'.
    - injection Hs' as _ Hs'. injection Hlen as Hlen. exact (IH _ Hs' Hlen). }
  exact (Hdet _ _ _ _ _ _ _ Hrest Hm' Hm).
Qed.

Lemma leftmost_unique (r : regex) (s : string) (i i' : nat) (caps caps' : list string) :
  deterministic r -> leftmost r s i caps -> leftmost r s i' caps' ->
  i = i' /\ caps = caps'.
Proof.
  intros Hdet Hl Hl'. split.
  - destruct Hl as [Hocc Hfirst], Hl' as [Hocc' Hfirst'].
    destruct (Nat.lt_trichotomy i i') as [Hlt | [Heq | Hgt]]; [| exact Heq |].
    + destruct (Hfirst' _ _ Hlt Hocc).
    + destruct (Hfirst _ _ Hgt Hocc').
  - pose proof (leftmost_regex_match _ _ _ _ Hdet Hl) as H.
    pose proof (leftmost_regex_match _ _ _ _ Hdet Hl') as H'.
    congruence.
Qed.

(* ================================================================= *)
(** ** The title of the result report *)

Lemma titleText_both (semesterId : string) (grades : list Grade) (y d n : ascii) :
  regex_match semesterId year_re = Some [String y ""; String d ""] ->
  regex_match semesterId sem_re = Some [String n ""] ->
  titleText semesterId grades
  = String (upper_char y) (String d (" SEMESTER-" ++ String n " RESULTS")).
Proof.
  intros Hy Hs. unfold titleText. rewrite Hy, Hs. reflexivity.
Qed.

Lemma titleText_inferred (semesterId : string) (grades : list Grade) (code : string)
    (d n : ascii) :
  regex_match semesterId year_re = None ->
  firstCode grades = Some code ->
  regex_match code code_re = Some [String d ""] ->
  regex_match semesterId sem_re = Some [String n ""] ->
  titleText semesterId grades = String "E" (String d (" SEMESTER-" ++ String n " RESULTS")).
Proof.
  intros Hy Hfirst Hc Hs. unfold titleText. rewrite Hy, Hs.
  destruct grades as [| g grades]; [discriminate Hfirst |].
  simpl in Hfirst. rewrite Hfirst.
  destruct code as [| a code]; [discriminate Hc |].
  rewrite Hc. reflexivity.
Qed.

Lemma titleText_no_semester (semesterId : string) (grades : list Grade) :
  regex_match semesterId sem_re = None ->
  titleText semesterId grades = fallbackTitle semesterId.
Proof.
  intros Hs. unfold titleText. rewrite Hs.
  match goal with
  | |- match ?year with _ => _ end = _ => destruct year; reflexivity
  end.
Qed.

Lemma titleText_no_year (semesterId : string) (grades : list Grade) :
  regex_match semesterId year_re = None ->
  (forall code, firstCode grades = Some code -> regex_match code code_re = None) ->
  titleText semesterId grades = fallbackTitle semesterId.
Proof.
  intros Hy Hcode. unfold titleText. rewrite Hy.
  destruct grades as [| g grades]; [reflexivity |].
  simpl in Hcode.
  destruct (subject_code (grade_subject g)) as [[| a code] |]; try reflexivity.
  rewrite (Hcode _ eq_refl). reflexivity.
Qed.

(** C7, as stated, fails where it has the year inferred from any grade
    entry whose code matches: only the first entry is looked at. Here
    [semesterId] is "S1" (a semester, no year) and the second entry has the
    code "CS2101", which matches the pattern; the title is the fallback
    "S1 RESULTS", not "E2 SEMESTER-1 RESULTS". *)
Lemma titleText_ignores_later_codes :
  ~ found year_re "S1" /\
  found sem_re "S1" /\
  (exists g code, In g laterCodeGrades /\ subject_code (grade_subject g) = Some code /\
                  found code_re code) /\
  titleText "S1" laterCodeGrades = "S1 RESULTS" /\
  titleText "S1" laterCodeGrades <> "E2 SEMESTER-1 RESULTS".
Proof.
  split; [apply regex_match_null; reflexivity |].
  split.
  { destruct (regex_match_leftmost sem_re "S1" ["1"] eq_refl) as (i & Hocc & _).
    exists i, ["1"]. exact Hocc. }
  split.
  { exists (sampleGrade (Some "CS2101") 3%float 7%float), "CS2101".
    split; [right; left; reflexivity |]. split; [reflexivity |].
    destruct (regex_match_leftmost code_re "CS2101" ["2"] eq_refl) as (i & Hocc & _).
    exists i, ["2"]. exact Hocc. }
  split; [reflexivity | discriminate].
Qed.

(** C7, amended. The title is defined for every [semesterId], the empty
    string included, and one of three cases applies. When the year pattern
    and the semester pattern are both found in [semesterId], the title is
    "<YEAR><DIGIT> SEMESTER-<N> RESULTS" with the letter (in upper case) and
    digit of the leftmost year match and the digit of the leftmost semester
    match. When the year is not found but the subject code of the first
    grade entry starts with letters, an optional separator and a digit 1-4,
    and the semester is found, the title is "E<DIGIT> SEMESTER-<N> RESULTS"
    with the digit of that code. In every other case the title is the
    upper-cased [semesterId] followed by " RESULTS", with the first
    " RESULTS RESULTS" in it replaced by " RESULTS". Each of the three
    patterns has one leftmost match at most, so the letter and the digits
    are determined by the input. *)
Theorem title_derivation (semesterId : string) (grades : list Grade) :
  let title := titleText semesterId grades in
  let inferable := exists code, firstCode grades = Some code /\ found code_re code in
  (found year_re semesterId -> found sem_re semesterId ->
   exists i y d j n,
     leftmost year_re semesterId i [String y ""; String d ""] /\
     one_of_i "EP" y = true /\ range "1" "4" d = true /\
     leftmost sem_re semesterId j [String n ""] /\ range "1" "3" n = true /\
     title = String (upper_char y) (String d (" SEMESTER-" ++ String n " RESULTS"))) /\
  (~ found year_re semesterId -> inferable -> found sem_re semesterId ->
   exists code d j n,
     firstCode grades = Some code /\
     leftmost code_re code 0 [String d ""] /\ range "1" "4" d = true /\
     leftmost sem_re semesterId j [String n ""] /\ range "1" "3" n = true /\
     title = String "E" (String d (" SEMESTER-" ++ String n " RESULTS"))) /\
  (~ found sem_re semesterId \/ (~ found year_re semesterId /\ ~ inferable) ->
   title = fallbackTitle semesterId) /\
  ((found year_re semesterId /\ found sem_re semesterId) \/
   (~ found year_re semesterId /\ inferable /\ found sem_re semesterId) \/
   (~ found sem_re semesterId \/ (~ found year_re semesterId /\ ~ inferable))) /\
  (forall r, In r [year_re; sem_re; code_re] ->
   forall s i caps i' caps',
     leftmost r s i caps -> leftmost r s i' caps' -> i = i' /\ caps = caps') /\
  titleText "" grades = " RESULTS" /\
  titleText "E2 results" grades = "E2 RESULTS" /\
  titleText "AY24-E3-S2" grades = "E3 SEMESTER-2 RESULTS" /\
  titleText "Sem-1" scenarioA = "E2 SEMESTER-1 RESULTS".
Proof.
  intros title inferable.
  assert (Hyear : forall caps, regex_match semesterId year_re = Some caps ->
            exists i y d, caps = [String y ""; String d ""] /\
                          leftmost year_re semesterId i caps /\
                          one_of_i "EP" y = true /\ range "1" "4" d = true).
  { intros caps H. destruct (regex_match_leftmost _ _ _ H) as (i & Hleft).
    destruct Hleft as [(pre & w & post & Hs & Hlen & Hm) Hfirst].
    destruct (year_re_captures _ _ _ Hm) as (y & d & Hcaps & Hy & Hd).
    exists i, y, d. repeat split; try assumption.
    exists pre, w, post. repeat split; assumption. }
  assert (Hsem : forall caps, regex_match semesterId sem_re = Some caps ->
            exists j n, caps = [String n ""] /\ leftmost sem_re semesterId j caps /\
                        range "1" "3" n = true).
  { intros caps H. destruct (regex_match_leftmost _ _ _ H) as (j & Hleft).
    destruct Hleft as [(pre & w & post & Hs & Hlen & Hm) Hfirst].
    destruct (sem_re_captures _ _ _ Hm) as (n & Hcaps & Hn).
    exists j, n. repeat split; try assumption.
    exists pre, w, post. repeat split; assumption. }
  assert (Hcode : forall code caps, regex_match code code_re = Some caps ->
            exists d, caps = [String d ""] /\ leftmost code_re code 0 caps /\
                      range "1" "4" d = true).
  { intros code caps H. destruct (regex_match_leftmost _ _ _ H) as (i & Hleft).
    destruct Hleft as [(pre & w & post & Hs & Hlen & Hm) Hfirst].
    destruct (code_re_captures _ _ _ Hm) as (d & Hcaps & Hd).
    assert (Hi : i = 0).
    { unfold code_re in Hm. inversion Hm; subst.
      match goal with H0 : matches Bos _ _ _ |- _ => inversion H0 end. congruence. }
    rewrite Hi in *. clear Hi.
    exists d. split; [exact Hcaps |]. split; [| exact Hd]. split.
    - exists pre, w, post. repeat split; assumption.
    - intros j caps' Hlt. inversion Hlt. }
  split; [| split; [| split; [| split; [| split; [| split]]]]].
  - intros Hfy Hfs.
    destruct (found_regex_match _ _ Hfy) as (yc & Hy).
    destruct (found_regex_match _ _ Hfs) as (sc & Hs).
    destruct (Hyear _ Hy) as (i & y & d & Hyc & Hly & Hy1 & Hd1).
    destruct (Hsem _ Hs) as (j & n & Hsc & Hls & Hn1).
    subst yc sc. exists i, y, d, j, n.
    repeat split; try assumption; try apply Hly; try apply Hls.
    unfold title. apply titleText_both; assumption.
  - intros Hny (code & Hfirst & Hfc) Hfs.
    destruct (regex_match semesterId year_re) as [yc |] eqn:Hy.
    { destruct (Hyear _ eq_refl) as (i & _ & _ & _ & [Hocc _] & _).
      destruct Hny. exists i, yc. exact Hocc. }
    destruct (found_regex_match _ _ Hfc) as (cc & Hc).
    destruct (found_regex_match _ _ Hfs) as (sc & Hs).
    destruct (Hcode _ _ Hc) as (d & Hcc & Hlc & Hd1).
    destruct (Hsem _ Hs) as (j & n & Hsc & Hls & Hn1).
    subst cc sc. exists code, d, j, n.
    repeat split; try assumption; try apply Hlc; try apply Hls.
    unfold title. eapply titleText_inferred; eassumption.
  - intros [Hns | [Hny Hni]]; unfold title.
    + apply titleText_no_semester.
      destruct (regex_match semesterId sem_re) as [sc |] eqn:Hs; [| reflexivity].
      destruct (Hsem _ eq_refl) as (j & _ & _ & [Hocc _] & _).
      destruct Hns. exists j, sc. exact Hocc.
    + apply titleText_no_year.
      * destruct (regex_match semesterId year_re) as [yc |] eqn:Hy; [| reflexivity].
        destruct (Hyear _ eq_refl) as (i & _ & _ & _ & [Hocc _] & _).
        destruct Hny. exists i, yc. exact Hocc.
      * intros code Hfirst.
        destruct (regex_match code code_re) as [cc |] eqn:Hc; [| reflexivity].
        destruct (Hcode _ _ Hc) as (d & _ & [Hocc _] & _).
        destruct Hni. exists code. split; [exact Hfirst |]. exists 0, cc. exact Hocc.
  - destruct (found_dec sem_re semesterId) as [Hfs | Hns]; [| right; right; left; exact Hns].
    destruct (found_dec year_re semesterId) as [Hfy | Hny]; [left; split; assumption |].
    right.
    assert (Hdec : inferable \/ ~ inferable).
    { unfold inferable. destruct (firstCode grades) as [code |].
      - destruct (found_dec code_re code) as [Hf | Hn].
        + left. exists code. split; [reflexivity | exact Hf].
        + right. intros (code' & Heq & Hf). injection Heq as Heq. subst code'. exact (Hn Hf).
      - right. intros (code' & Heq & _). discriminate Heq. }
    destruct Hdec as [Hi | Hni].
    + left. repeat split; assumption.
    + right. right. split; assumption.
  - intros r [Hr | [Hr | [Hr | []]]] s i caps i' caps'; subst r; apply leftmost_unique.
    + exact year_re_deterministic.
    + exact sem_re_deterministic.
    + exact code_re_deterministic.
  - apply titleText_no_semester. reflexivity.
  - split; [apply titleText_no_semester; reflexivity |].
    split; [apply (titleText_both _ _ "E" "3" "2"); reflexivity | reflexivity].
Qed.

(* ================================================================= *)
(** * Further properties *)

(* ================================================================= *)
(** ** The run of a report generator, step by step *)

Local Open Scope list_scope.

Lemma opened_app (b : Browser) (s1 s2 : trace) :
  opened b (s1 ++ s2) = opened b s1 + opened b s2.
Proof.
  induction s1 as [| e s1 IH]; simpl; [reflexivity |].
  destruct e as [| p x [b' | err] | | | | | | |]; simpl; rewrite ?IH; try reflexivity. lia.
Qed.

Lemma totalWait_app (s1 s2 : trace) : totalWait (s1 ++ s2) = totalWait s1 + totalWait s2.
Proof.
  induction s1 as [| e s1 IH]; simpl; [reflexivity |].
  destruct e; simpl; rewrite ?IH; try reflexivity. lia.
Qed.

Lemma pageCalls_app (s1 s2 : trace) : pageCalls (s1 ++ s2) = pageCalls s1 + pageCalls s2.
Proof.
  induction s1 as [| e s1 IH]; simpl; [reflexivity |].
  destruct e; simpl; rewrite ?IH; reflexivity.
Qed.

Lemma launchCount_app (s1 s2 : trace) :
  launchCount (s1 ++ s2) = launchCount s1 + launchCount s2.
Proof.
  induction s1 as [| e s1 IH]; simpl; [reflexivity |].
  destruct e; simpl; rewrite ?IH; reflexivity.
Qed.

(** The launch phase touches no page. *)
Lemma launchPhase_no_page (s : trace) :
  Forall (fun e => launchPhase e = true) s -> pageCalls s = 0.
Proof.
  induction 1 as [| e s He Hall IH]; simpl; [reflexivity |].
  destruct e; simpl in He; try discriminate He; exact IH.
Qed.

(** The browsers a launch loop opened: the one it returns, once. *)
Lemma launchLoop_opened (env : Env) (execPath : string) (retries todo : nat) :
  forall (i : nat) (t : trace),
  exists s,
    snd (launchLoop env execPath retries i todo t) = t ++ s /\
    forall b,
      opened b s =
      match fst (launchLoop env execPath retries i todo t) with
      | Return (Some b') => if Nat.eqb b b' then 1 else 0
      | _ => 0
      end.
Proof.
  induction todo as [| todo IH]; intros i t.
  - exists []. rewrite app_nil_r. split; reflexivity.
  - rewrite launchLoop_step. cbv zeta.
    destruct (puppeteer_launch env t (isProduction env) execPath) as [b0 | err].
    + exists [launched env execPath (Return b0)]. split; [reflexivity |].
      intros b. simpl. lia.
    + destruct ((i <? retries - 1)%nat && isTransient err).
      * destruct (IH (i + 1)
                    (t ++ [launched env execPath (Throw err); retryWarning i; Timeout 200]))
          as (s & Hs & Hopen).
        exists (launched env execPath (Throw err) :: retryWarning i :: Timeout 200 :: s).
        split; [rewrite Hs, <- app_assoc; reflexivity |].
        intros b. simpl. exact (Hopen b).
      * exists [launched env execPath (Throw err)]. split; [reflexivity |].
        intros b. reflexivity.
Qed.

Lemma baseLaunchBrowser_opened (env : Env) (retries : nat) (t : trace) :
  exists s,
    snd (baseLaunchBrowser env retries t) = t ++ s /\
    Forall (fun e => launchPhase e = true) s /\
    forall b,
      opened b s =
      match fst (baseLaunchBrowser env retries t) with
      | Return (Some b') => if Nat.eqb b b' then 1 else 0
      | _ => 0
      end.
Proof.
  destruct (baseLaunchBrowser_trace env retries t) as (s & Hs & Hall).
  exists s. split; [exact Hs |]. split; [exact Hall |].
  revert Hs. unfold baseLaunchBrowser, bind.
  destruct (getExecutablePath_trace env t) as (s0 & Hs0 & _).
  assert (H0 : forall b, opened b s0 = 0).
  { revert Hs0. unfold getExecutablePath.
    destruct (isProduction env).
    - unfold call. simpl. intros H. apply app_inv_head in H. subst s0. reflexivity.
    - destruct (truthy (PUPPETEER_EXECUTABLE_PATH env));
        [| destruct (find (existsSync env) paths)]; simpl; intros H;
        rewrite <- (app_nil_r t) in H at 1; apply app_inv_head in H; subst s0; reflexivity. }
  destruct (getExecutablePath env t) as [[execPath | e] t0]; simpl in Hs0; subst t0.
  - destruct (launchLoop_opened env execPath retries retries 0 (t ++ s0))
      as (s1 & Hs1 & Hopen).
    intros Hs. rewrite Hs1, <- app_assoc in Hs. apply app_inv_head in Hs. subst s.
    intros b. rewrite opened_app, H0. exact (Hopen b).
  - simpl. intros Hs. apply app_inv_head in Hs. subst s. exact H0.
Qed.

Section PrintPdfRun.
Variable env : Env.
Variable html : Html.
Variable label : string.

Lemma printPdf_run (t t1 : trace) (b : Browser) :
  baseLaunchBrowser env defaultRetries t = (Return (Some b), t1) ->
  exists render body,
    pageRun html label b render body /\
    let rc := browser_close env (t1 ++ render) b in
    printPdf env html label t =
    (match rc with Return _ => body | Throw e' => Throw e' end,
     t1 ++ render ++ [Close b rc]).
Proof.
  intros Hlaunch.
  unfold printPdf, bind, attempt. rewrite Hlaunch.
  unfold try_catch_finally, try_finally, try_catch, bind, call, console, emit, ret, throw.
  destruct (browser_newPage env t1 b) as [page | e1] eqn:Hpage.
  - destruct (page_setContent env (t1 ++ [NewPage b (Return page)]) page html)
      as [[] | e2] eqn:Hcontent.
    + destruct (page_pdf env ((t1 ++ [NewPage b (Return page)])
                              ++ [SetContent page html (Return tt)]) page)
        as [pdf | e3] eqn:Hpdf.
      * exists [NewPage b (Return page); SetContent page html (Return tt);
                Pdf page (Return pdf)], (Return pdf).
        split; [right; right; right; exists page, pdf; split; reflexivity |].
        cbv zeta. rewrite <- !app_assoc. simpl.
        destruct (browser_close env _ b); reflexivity.
      * exists [NewPage b (Return page); SetContent page html (Return tt);
                Pdf page (Throw e3); Console error label (Some e3)], (Throw e3).
        split; [right; right; left; exists page, e3; split; reflexivity |].
        cbv zeta. rewrite <- !app_assoc. simpl.
        destruct (browser_close env _ b); reflexivity.
    + exists [NewPage b (Return page); SetContent page html (Throw e2);
              Console error label (Some e2)], (Throw e2).
      split; [right; left; exists page, e2; split; reflexivity |].
      cbv zeta. rewrite <- !app_assoc. simpl.
      destruct (browser_close env _ b); reflexivity.
  - exists [NewPage b (Throw e1); Console error label (Some e1)], (Throw e1).
    split; [left; exists e1; split; reflexivity |].
    cbv zeta. rewrite <- !app_assoc. simpl.
    destruct (browser_close env _ b); reflexivity.
Qed.

(** The run of [printPdf] when no browser was launched. *)
Lemma printPdf_not_launched (t t1 : trace) (e : JsError) :
  baseLaunchBrowser env defaultRetries t = (Throw e, t1) ->
  printPdf env html label t = (Throw e, t1 ++ [Console error label (Some e)]).
Proof.
  intros Hlaunch. unfold printPdf, bind, attempt. rewrite Hlaunch. reflexivity.
Qed.

Lemma printPdf_undefined (t t1 : trace) :
  baseLaunchBrowser env defaultRetries t = (Return None, t1) ->
  printPdf env html label t =
  (Throw (Error "Failed to launch browser"),
   t1 ++ [Console error label (Some (Error "Failed to launch browser"))]).
Proof.
  intros Hlaunch. unfold printPdf, bind, attempt. rewrite Hlaunch. reflexivity.
Qed.
End PrintPdfRun.

Section Generation.
Variable env : Env.
Variable html : Html.
Variable label : string.

(** What one generation adds to a trace: no mail; every browser it opened
    (one at most) closed once; the buffer it returns printed by a page. *)
Lemma printPdf_facts (t : trace) :
  exists s,
    snd (printPdf env html label t) = t ++ s /\
    sendCalls s = [] /\ sent s = [] /\
    (forall b, opened b s = closeCount b s /\ opened b s <= 1) /\
    (forall pdf, fst (printPdf env html label t) = Return pdf ->
                 exists page, In (Pdf page (Return pdf)) s).
Proof.
  destruct (baseLaunchBrowser_opened env defaultRetries t) as (s0 & Hs0 & Hall & Hopen).
  destruct (launchPhase_quiet s0 Hall) as (Hcalls & Hsent & Hclose0 & _).
  destruct (baseLaunchBrowser env defaultRetries t) as [[[b0 |] | e] t1] eqn:Hlaunch;
    simpl in Hs0, Hopen; subst t1.
  - destruct (printPdf_run env html label t _ b0 Hlaunch) as (render & body & Hrun & Heq).
    cbv zeta in Heq. rewrite Heq. simpl.
    exists (s0 ++ render ++ [Close b0 (browser_close env ((t ++ s0) ++ render) b0)]).
    split; [rewrite <- app_assoc; reflexivity |].
    assert (Hrender : sendCalls render = [] /\ sent render = [] /\
                      (forall b, opened b render = 0 /\ closeCount b render = 0)).
    { destruct Hrun as [(e & Hr & _) | [(page & e & Hr & _) | [(page & e & Hr & _)
                       | (page & pdf & Hr & _)]]]; subst render; repeat split. }
    destruct Hrender as (Hc & Hs & Hoc).
    rewrite !sendCalls_app, !sent_app, Hcalls, Hsent, Hc, Hs.
    split; [reflexivity |]. split; [destruct (browser_close env _ b0); reflexivity |].
    split.
    + intros b. rewrite !opened_app, !closeCount_app, Hopen, Hclose0.
      destruct (Hoc b) as [Ho Hcl]. rewrite Ho, Hcl. simpl.
      destruct (Nat.eqb b b0); split; lia.
    + intros pdf Hres.
      destruct (browser_close env ((t ++ s0) ++ render) b0); [| discriminate Hres].
      destruct Hrun as [(e & Hr & Hb) | [(page & e & Hr & Hb) | [(page & e & Hr & Hb)
                       | (page & pdf' & Hr & Hb)]]]; subst render body;
        try discriminate Hres.
      injection Hres as Hres. subst pdf'. exists page.
      apply in_or_app. right. simpl. auto.
  - rewrite (printPdf_undefined env html label t _ Hlaunch). simpl.
    exists (s0 ++ [Console error label (Some (Error "Failed to launch browser"))]).
    split; [rewrite <- app_assoc; reflexivity |].
    rewrite sendCalls_app, sent_app, Hcalls, Hsent.
    split; [reflexivity |]. split; [reflexivity |].
    split; [| intros pdf H; discriminate H].
    intros b. rewrite opened_app, closeCount_app, Hopen, Hclose0. simpl. split; lia.
  - rewrite (printPdf_not_launched env html label t _ e Hlaunch). simpl.
    exists (s0 ++ [Console error label (Some e)]).
    split; [rewrite <- app_assoc; reflexivity |].
    rewrite sendCalls_app, sent_app, Hcalls, Hsent.
    split; [reflexivity |]. split; [reflexivity |].
    split; [| intros pdf H; discriminate H].
    intros b. rewrite opened_app, closeCount_app, Hopen, Hclose0. simpl. split; lia.
Qed.
End Generation.

(* ================================================================= *)
(** ** The handler, branch by branch *)

Lemma worker_branchOf (env : Env) (job : Job) (t : trace) :
  worker env job t = branchOf env (job_data job) (t ++ [processing job]).
Proof.
  unfold worker, branchOf, emailBranch, reportBranch, processing, bind, console, emit.
  destruct (String.eqb (type (job_data job)) "EMAIL"); [reflexivity |].
  destruct (String.eqb (type (job_data job)) "RESULTS"); [reflexivity |].
  destruct (String.eqb (type (job_data job)) "ATTENDANCE_REPORT"); reflexivity.
Qed.

Lemma emailBranch_run (env : Env) (data : JobData) (t0 : trace) :
  emailBranch env data t0 =
  match transporter_sendMail env t0 (emailMessage data) with
  | Return u =>
      (Return tt,
       t0 ++ [SendMail (emailMessage data) (Return u);
              Console log ("Email sent to " ++ recipient data)%string None])
  | Throw e => (Throw e, t0 ++ [SendMail (emailMessage data) (Throw e)])
  end.
Proof.
  unfold emailBranch, bind, sendMail, call, console, emit.
  destruct (transporter_sendMail env t0 (emailMessage data)); [| reflexivity].
  rewrite <- app_assoc. reflexivity.
Qed.

Lemma reportBranch_run (env : Env) (generate : M Buffer) (message : Buffer -> Message)
    (done : string) (failed : JsError -> string) (t0 : trace) :
  reportBranch env generate message done failed t0 =
  match generate t0 with
  | (Throw e, tg) => (Throw e, tg ++ [Console error (failed e) None])
  | (Return pdf, tg) =>
      match transporter_sendMail env tg (message pdf) with
      | Return u =>
          (Return tt, tg ++ [SendMail (message pdf) (Return u); Console log done None])
      | Throw e =>
          (Throw e, tg ++ [SendMail (message pdf) (Throw e); Console error (failed e) None])
      end
  end.
Proof.
  unfold reportBranch, try_catch, bind, sendMail, call, console, emit, throw.
  destruct (generate t0) as [[pdf | e] tg]; [| reflexivity].
  destruct (transporter_sendMail env tg (message pdf)); rewrite <- app_assoc; reflexivity.
Qed.

Lemma branchOf_shape (env : Env) (data : JobData) (t0 : trace) :
  exists gen tail,
    snd (branchOf env data t0) = t0 ++ gen ++ tail /\
    sendCalls gen = [] /\ sent gen = [] /\
    (forall b, opened b gen = closeCount b gen /\ opened b gen <= 1) /\
    handlerTail data tail (fst (branchOf env data t0)).
Proof.
  assert (Hreport : forall html label message done failed,
            (forall pdf, msg_to (message pdf) = recipient data) ->
            knownType (type data) = true ->
            exists gen tail,
              snd (reportBranch env (printPdf env html label) message done failed t0)
              = t0 ++ gen ++ tail /\
              sendCalls gen = [] /\ sent gen = [] /\
              (forall b, opened b gen = closeCount b gen /\ opened b gen <= 1) /\
              handlerTail data tail
                (fst (reportBranch env (printPdf env html label) message done failed t0))).
  { intros html label message done failed Hto Hknown.
    destruct (printPdf_facts env html label t0) as (gen & Hgen & Hc & Hs & Hbal & _).
    rewrite reportBranch_run.
    destruct (printPdf env html label t0) as [[pdf | e] tg]; simpl in Hgen; subst tg.
    - destruct (transporter_sendMail env (t0 ++ gen) (message pdf)) as [u | e].
      + exists gen. eexists. split; [simpl; rewrite <- app_assoc; reflexivity |].
        repeat (split; [assumption |]).
        right. left. exists (message pdf), u, done. repeat split; auto.
      + exists gen. eexists. split; [simpl; rewrite <- app_assoc; reflexivity |].
        repeat (split; [assumption |]).
        right. right. right. left. exists (message pdf), e, (failed e). repeat split; auto.
    - exists gen. eexists. split; [simpl; rewrite <- app_assoc; reflexivity |].
      repeat (split; [assumption |]).
      right. right. right. right. exists e, (failed e). split; reflexivity. }
  unfold branchOf.
  destruct (String.eqb (type data) "EMAIL") eqn:He.
  - exists []. rewrite emailBranch_run.
    destruct (transporter_sendMail env t0 (emailMessage data)) as [u | e].
    + eexists. split; [reflexivity |]. split; [reflexivity |]. split; [reflexivity |]. split; [intros b; simpl; split; lia |].
      right. left. exists (emailMessage data), u. eexists.
      repeat split. unfold knownType. rewrite He. reflexivity.
    + eexists. split; [reflexivity |]. split; [reflexivity |]. split; [reflexivity |]. split; [intros b; simpl; split; lia |].
      right. right. left. exists (emailMessage data), e. repeat split.
  - destruct (String.eqb (type data) "RESULTS") eqn:Hr.
    + apply (Hreport (ResultHtml (resultDocument data)) "Puppeteer Launch Error:"%string);
        [reflexivity | unfold knownType; rewrite He, Hr; reflexivity].
    + destruct (String.eqb (type data) "ATTENDANCE_REPORT") eqn:Ha.
      * apply (Hreport (AttendanceHtml (attendanceDocument data))
                 "Puppeteer Launch Error (Attendance):"%string);
          [reflexivity | unfold knownType; rewrite He, Hr, Ha; reflexivity].
      * exists [], []. split; [simpl; rewrite app_nil_r; reflexivity |].
        split; [reflexivity |]. split; [reflexivity |]. split; [intros b; simpl; split; lia |].
        left. repeat split. unfold knownType. rewrite He, Hr, Ha. reflexivity.
Qed.


(** Where the mail call stands in a trace that has one after a part
    without any. *)
Lemma split_at_send (gen : trace) :
  forall (m0 : Message) (r0 : outcome unit) (rest0 pre : trace)
         (m : Message) (r : outcome unit) (post : trace),
    sendCalls gen = [] -> sendCalls rest0 = [] ->
    gen ++ SendMail m0 r0 :: rest0 = pre ++ SendMail m r :: post ->
    pre = gen /\ m = m0 /\ r = r0 /\ post = rest0.
Proof.
  induction gen as [| g gen IH]; intros m0 r0 rest0 pre m r post Hgen Hrest Heq.
  - destruct pre as [| x pre]; simpl in Heq.
    + injection Heq as Hm Hr Hpost. subst. repeat split.
    + injection Heq as _ Heq. rewrite Heq, sendCalls_app in Hrest. simpl in Hrest.
      destruct (sendCalls pre); discriminate Hrest.
  - destruct pre as [| x pre]; simpl in Heq.
    + injection Heq as Hg _. subst g. discriminate Hgen.
    + injection Heq as Hx Heq. subst x.
      assert (Hgen' : sendCalls gen = []) by (destruct g; simpl in Hgen; congruence).
      destruct (IH _ _ _ _ _ _ _ Hgen' Hrest Heq) as (Hpre & Hm & Hr & Hpost).
      subst. repeat split.
Qed.

(* ================================================================= *)
(** ** What every job keeps to *)


(** X2. A job hands at most one message to the mail transport, and only
    to the recipient of the job. When the handler returns, exactly one
    message was accepted for a job of a known type (EMAIL, RESULTS,
    ATTENDANCE_REPORT) and none for any other type; when it raises, no
    message was accepted. *)
Theorem worker_mail_discipline (env : Env) (job : Job) (t : trace) :
  exists s,
    snd (worker env job t) = t ++ s /\
    List.length (sendCalls s) <= 1 /\
    (forall m, In m (sendCalls s) -> msg_to m = recipient (job_data job)) /\
    (fst (worker env job t) = Return tt ->
     List.length (sent s) = if knownType (type (job_data job)) then 1 else 0) /\
    (forall e, fst (worker env job t) = Throw e -> sent s = []).
Proof.
  rewrite worker_branchOf.
  destruct (branchOf_shape env (job_data job) (t ++ [processing job]))
    as (gen & tail & Hs & Hcalls & Hsent & _ & Htail).
  exists (processing job :: gen ++ tail).
  split; [rewrite Hs, <- app_assoc; reflexivity |].
  set (res := fst (branchOf env (job_data job) (t ++ [processing job]))) in *.
  clearbody res.
  unfold processing. simpl. rewrite sendCalls_app, sent_app, Hcalls, Hsent. simpl.
  destruct Htail as [(H & Hres & Hk) | [(m & u & text & H & Hres & Hto & Hk)
           | [(m & e & H & Hres & Hto) | [(m & e & text & H & Hres & Hto)
           | (e & text & H & Hres)]]]]; subst tail res; simpl;
    try rewrite Hk; repeat split; try lia; try contradiction;
    try (intros; discriminate);
    try (intros m' [Hm | []]; subst m'; exact Hto).
Qed.

(** X3. Mail is sent with no browser open: at the call of the mail
    transport every browser opened for the job has been closed, and after
    the call the handler launches nothing, touches no page and closes
    nothing. *)
Theorem worker_sends_after_release (env : Env) (job : Job) (t : trace) :
  exists s,
    snd (worker env job t) = t ++ s /\
    forall pre m r post,
      s = pre ++ SendMail m r :: post ->
      (forall b, opened b pre = closeCount b pre) /\
      (forall b, opened b post = 0 /\ closeCount b post = 0) /\
      pageCalls post = 0 /\ launchCount post = 0.
Proof.
  rewrite worker_branchOf.
  destruct (branchOf_shape env (job_data job) (t ++ [processing job]))
    as (gen & tail & Hs & Hcalls & _ & Hbal & Htail).
  exists (processing job :: gen ++ tail).
  split; [rewrite Hs, <- app_assoc; reflexivity |].
  intros pre m r post Heq.
  assert (Hgen : sendCalls (processing job :: gen) = []) by exact Hcalls.
  assert (Hsplit : forall m0 r0 rest0,
            tail = SendMail m0 r0 :: rest0 -> sendCalls rest0 = [] ->
            pre = processing job :: gen /\ post = rest0).
  { intros m0 r0 rest0 Ht Hrest. subst tail.
    change (processing job :: gen ++ SendMail m0 r0 :: rest0)
      with ((processing job :: gen) ++ SendMail m0 r0 :: rest0) in Heq.
    destruct (split_at_send _ _ _ _ _ _ _ _ Hgen Hrest Heq) as (Hp & _ & _ & Hq).
    split; assumption. }
  assert (Hpre : forall b, opened b (processing job :: gen)
                           = closeCount b (processing job :: gen))
    by (intros b; exact (proj1 (Hbal b))).
  destruct Htail as [(H & _) | [(m0 & u & text & H & _)
           | [(m0 & e & H & _) | [(m0 & e & text & H & _) | (e & text & H & _)]]]].
  - subst tail. rewrite app_nil_r in Heq.
    assert (Hin : In m (sendCalls (processing job :: gen))).
    { rewrite Heq, sendCalls_app. apply in_or_app. right. left. reflexivity. }
    rewrite Hgen in Hin. destruct Hin.
  - destruct (Hsplit _ _ _ H eq_refl) as [Hp Hq]. subst pre post. repeat split. apply Hpre.
  - destruct (Hsplit _ _ _ H eq_refl) as [Hp Hq]. subst pre post. repeat split. apply Hpre.
  - destruct (Hsplit _ _ _ H eq_refl) as [Hp Hq]. subst pre post. repeat split. apply Hpre.
  - subst tail.
    assert (Hin : In m (sendCalls (processing job :: gen ++ [Console error text None]))).
    { rewrite Heq, sendCalls_app. apply in_or_app. right. left. reflexivity. }
    change (processing job :: gen ++ [Console error text None])
      with ((processing job :: gen) ++ [Console error text None]) in Hin.
    rewrite sendCalls_app, Hgen in Hin. destruct Hin.
Qed.

(** X4. A job that is neither RESULTS nor ATTENDANCE_REPORT never touches
    a browser: the executable is not resolved, nothing is launched and no
    page is called. *)
Theorem worker_without_report_needs_no_browser (env : Env) (job : Job) (t : trace) :
  type (job_data job) <> "RESULTS"%string ->
  type (job_data job) <> "ATTENDANCE_REPORT"%string ->
  exists s,
    snd (worker env job t) = t ++ s /\
    launchCount s = 0 /\ pageCalls s = 0 /\
    Forall (fun e => match e with
                     | Console _ _ _ | SendMail _ _ => True
                     | _ => False
                     end) s.
Proof.
  intros Hr Ha. apply String.eqb_neq in Hr, Ha.
  rewrite worker_branchOf. unfold branchOf. rewrite Hr, Ha.
  destruct (String.eqb (type (job_data job)) "EMAIL").
  - rewrite emailBranch_run.
    destruct (transporter_sendMail env _ (emailMessage (job_data job))); simpl;
      eexists; (split; [rewrite <- app_assoc; reflexivity |]);
      repeat split; repeat constructor.
  - exists [processing job]. repeat split. repeat constructor.
Qed.

Lemma worker_without_report_needs_no_browser_witness :
  exists s,
    snd (worker idealEnv (sampleJob (sampleData "EMAIL" [] [])) []) = [] ++ s /\
    launchCount s = 0 /\ pageCalls s = 0 /\
    Forall (fun e => match e with
                     | Console _ _ _ | SendMail _ _ => True
                     | _ => False
                     end) s.
Proof.
  apply (worker_without_report_needs_no_browser idealEnv
           (sampleJob (sampleData "EMAIL" [] [])) []); simpl; discriminate.
Defined.

(** X5. The run of an EMAIL job. A non-empty [html] is the body of the
    message as it is, and the message has no attachment. When the transport
    accepts the message the handler logs the delivery and returns; when the
    transport raises, the handler raises the same error at once: nothing is
    logged after the call and nothing is caught. *)
Theorem worker_email_run (env : Env) (job : Job) (t : trace) :
  type (job_data job) = "EMAIL"%string ->
  let data := job_data job in
  let m := emailMessage data in
  (forall h, html data = Some h -> h <> ""%string -> msg_html m = h) /\
  msg_to m = recipient data /\ msg_subject m = subject data /\ msg_attachments m = [] /\
  worker env job t =
  match transporter_sendMail env (t ++ [processing job]) m with
  | Return u =>
      (Return tt,
       t ++ [processing job; SendMail m (Return u);
             Console log ("Email sent to " ++ recipient data)%string None])
  | Throw e => (Throw e, t ++ [processing job; SendMail m (Throw e)])
  end.
Proof.
  intros Htype data m. subst m data.
  split.
  { intros h Hh Hne. unfold emailMessage. simpl. rewrite Hh.
    destruct h; [contradiction | reflexivity]. }
  repeat (split; [reflexivity |]).
  rewrite worker_branchOf. unfold branchOf. rewrite Htype. simpl.
  rewrite emailBranch_run.
  destruct (transporter_sendMail env (t ++ [processing job]) (emailMessage (job_data job)));
    rewrite <- app_assoc; reflexivity.
Qed.

Lemma worker_email_run_witness :
  let job := sampleJob (sampleData "EMAIL" [] []) in
  let data := job_data job in
  let m := emailMessage data in
  (forall h, html data = Some h -> h <> ""%string -> msg_html m = h) /\
  msg_to m = recipient data /\ msg_subject m = subject data /\ msg_attachments m = [] /\
  worker idealEnv job [] =
  match transporter_sendMail idealEnv ([] ++ [processing job]) m with
  | Return u =>
      (Return tt,
       [] ++ [processing job; SendMail m (Return u);
              Console log ("Email sent to " ++ recipient data)%string None])
  | Throw e => (Throw e, [] ++ [processing job; SendMail m (Throw e)])
  end.
Proof.
  exact (worker_email_run idealEnv (sampleJob (sampleData "EMAIL" [] [])) [] eq_refl).
Defined.

(** X6. The attachment is the printed document. When the handler of a
    RESULTS or ATTENDANCE_REPORT job returns, the one message accepted by
    the transport carries exactly one attachment, of type application/pdf,
    whose content is the buffer a [page.pdf()] call of this job returned,
    and whose name is made of the username and the semester of the job. *)
Theorem worker_attaches_printed_pdf (env : Env) (job : Job) (t : trace)
    (generate : M Buffer) (message : Buffer -> Message) (label : string) :
  reportJob env (job_data job) generate message label ->
  fst (worker env job t) = Return tt ->
  let data := job_data job in
  exists s page pdf,
    snd (worker env job t) = t ++ s /\
    In (Pdf page (Return pdf)) s /\
    sent s = [message pdf] /\
    msg_attachments (message pdf) =
    [ {| filename :=
           (if String.eqb label "Result"
            then "ACADEMIC_REPORT_" ++ username data ++ "_" ++ semesterId data ++ ".pdf"
            else username data ++ "_Attendance_" ++ semesterId data ++ ".pdf")%string;
         content := pdf;
         contentType := "application/pdf" |} ].
Proof.
  intros Hjob Hres data.
  assert (Hrun : forall html lbl done failed,
            fst (reportBranch env (printPdf env html lbl) message done failed
                   (t ++ [processing job])) = Return tt ->
            exists s page pdf,
              snd (reportBranch env (printPdf env html lbl) message done failed
                     (t ++ [processing job])) = t ++ s /\
              In (Pdf page (Return pdf)) s /\ sent s = [message pdf]).
  { intros html lbl done failed. rewrite reportBranch_run.
    destruct (printPdf_facts env html lbl (t ++ [processing job]))
      as (gen & Hgen & _ & Hsent & _ & Hpdf).
    destruct (printPdf env html lbl (t ++ [processing job])) as [[pdf | e] tg];
      simpl in Hgen; subst tg; [| intros H; discriminate H].
    destruct (Hpdf pdf eq_refl) as (page & Hin).
    destruct (transporter_sendMail env _ (message pdf)) as [u | e];
      [| intros H; discriminate H].
    intros _. exists (processing job :: gen ++ [SendMail (message pdf) (Return u);
                                                Console log done None]), page, pdf.
    split; [simpl; rewrite <- !app_assoc; reflexivity |].
    split; [right; apply in_or_app; left; exact Hin |].
    unfold processing. simpl. rewrite sent_app, Hsent. reflexivity. }
  subst data.
  rewrite worker_branchOf in *. unfold branchOf in *.
  destruct Hjob as [(Ht & Hg & Hm & Hl) | (Ht & Hg & Hm & Hl)];
    rewrite Ht in *; simpl in Hres |- *; rewrite <- Hm in *.
  - destruct (Hrun _ _ _ _ Hres) as (s & page & pdf & Hs & Hin & Hsent).
    exists s, page, pdf. repeat split; try assumption. subst message label. reflexivity.
  - destruct (Hrun _ _ _ _ Hres) as (s & page & pdf & Hs & Hin & Hsent).
    exists s, page, pdf. repeat split; try assumption. subst message label. reflexivity.
Qed.

Lemma worker_attaches_printed_pdf_witness :
  let data := sampleData "RESULTS" scenarioA [] in
  exists s page pdf,
    snd (worker idealEnv (sampleJob data) []) = [] ++ s /\
    In (Pdf page (Return pdf)) s /\
    sent s = [resultMessage data pdf] /\
    msg_attachments (resultMessage data pdf) =
    [ {| filename := "ACADEMIC_REPORT_O210001_E2S1.pdf";
         content := pdf;
         contentType := "application/pdf" |} ].
Proof.
  exact (worker_attaches_printed_pdf idealEnv (sampleJob (sampleData "RESULTS" scenarioA []))
           [] (generateResultPdf idealEnv (sampleData "RESULTS" scenarioA []))
           (resultMessage (sampleData "RESULTS" scenarioA [])) "Result"%string
           (or_introl (conj eq_refl (conj eq_refl (conj eq_refl eq_refl))))
           eq_refl).
Defined.

(* ================================================================= *)
(** ** Launching, further *)

(** X7. When the launch fails (no executable found, a launch error that is
    not retried, or the third transient one), both generators raise that
    very error after logging it under their label: no page is called and
    no browser is opened or closed. *)
Theorem generators_stop_at_failed_launch (env : Env) (data : JobData) (t t1 : trace)
    (e : JsError) :
  baseLaunchBrowser env defaultRetries t = (Throw e, t1) ->
  forall generate html label,
    In (generate, html, label) (generators env data) ->
    generate t = (Throw e, t1 ++ [Console error label (Some e)]) /\
    exists s0, t1 = t ++ s0 /\ pageCalls s0 = 0 /\
               forall b, opened b s0 = 0 /\ closeCount b s0 = 0.
Proof.
  intros Hlaunch generate html label Hin.
  assert (Hrun : printPdf env html label t = (Throw e, t1 ++ [Console error label (Some e)]))
    by exact (printPdf_not_launched env html label t t1 e Hlaunch).
  split.
  - destruct Hin as [Hin | [Hin | []]]; injection Hin as Hg Hh Hl; subst; exact Hrun.
  - destruct (baseLaunchBrowser_opened env defaultRetries t) as (s0 & Hs0 & Hall & Hopen).
    rewrite Hlaunch in Hs0, Hopen. simpl in Hs0, Hopen.
    exists s0. split; [exact Hs0 |]. split; [exact (launchPhase_no_page s0 Hall) |].
    intros b. split; [exact (Hopen b) |].
    destruct (launchPhase_quiet s0 Hall) as (_ & _ & Hclose & _). exact (Hclose b).
Qed.

Lemma generators_stop_at_failed_launch_witness :
  let data := sampleData "RESULTS" scenarioA [] in
  generateResultPdf noBrowserEnv data [] =
  (Throw noBrowserFound,
   [] ++ [Console error "Puppeteer Launch Error:"%string (Some noBrowserFound)]) /\
  exists s0, [] = [] ++ s0 /\ pageCalls s0 = 0 /\
             forall b, opened b s0 = 0 /\ closeCount b s0 = 0.
Proof.
  exact (generators_stop_at_failed_launch noBrowserEnv (sampleData "RESULTS" scenarioA [])
           [] [] noBrowserFound eq_refl
           (generateResultPdf noBrowserEnv (sampleData "RESULTS" scenarioA []))
           (ResultHtml (resultDocument (sampleData "RESULTS" scenarioA [])))
           "Puppeteer Launch Error:"%string (or_introl eq_refl)).
Defined.

Lemma launchLoop_defined (env : Env) (execPath : string) (retries todo : nat) :
  forall (i : nat) (t : trace),
    0 < todo -> i + todo = retries ->
    fst (launchLoop env execPath retries i todo t) <> Return None.
Proof.
  induction todo as [| todo IH]; intros i t Hpos Hi; [lia |].
  rewrite launchLoop_step. cbv zeta.
  destruct (puppeteer_launch env t (isProduction env) execPath) as [b | err].
  - discriminate.
  - destruct ((i <? retries - 1)%nat && isTransient err) eqn:Hretry; [| discriminate].
    apply andb_prop in Hretry. destruct Hretry as [Hlt _]. apply Nat.ltb_lt in Hlt.
    apply IH; lia.
Qed.

(** X8. With at least one try, and so with the default of three,
    [baseLaunchBrowser] never resolves to [undefined]: it returns a browser
    or raises. With zero tries it resolves to [undefined] without a single
    launch attempt, once the executable is resolved. *)
Theorem baseLaunchBrowser_defined (env : Env) (retries : nat) (t : trace) :
  (1 <= retries -> fst (baseLaunchBrowser env retries t) <> Return None) /\
  (forall execPath t0,
     getExecutablePath env t = (Return execPath, t0) ->
     baseLaunchBrowser env 0 t = (Return None, t0)) /\
  fst (baseLaunchBrowser env defaultRetries t) <> Return None.
Proof.
  assert (H : forall n, 1 <= n -> fst (baseLaunchBrowser env n t) <> Return None).
  { intros n Hn. unfold baseLaunchBrowser, bind.
    destruct (getExecutablePath env t) as [[execPath | e] t0]; [| discriminate].
    apply launchLoop_defined; lia. }
  split; [apply H |]. split; [| apply H; unfold defaultRetries; lia].
  intros execPath t0 Hpath. unfold baseLaunchBrowser, bind. rewrite Hpath. reflexivity.
Qed.

Lemma launchLoop_waits (env : Env) (execPath : string) (retries todo : nat) :
  forall (i : nat) (t : trace),
  i + todo = retries ->
  exists s,
    snd (launchLoop env execPath retries i todo t) = t ++ s /\
    launchCount s <= todo /\
    (0 < todo -> 1 <= launchCount s) /\
    totalWait s = 200 * (launchCount s - 1) /\
    (forall p x r, In (Launch p x r) s -> p = isProduction env /\ x = execPath).
Proof.
  induction todo as [| todo IH]; intros i t Hi.
  - exists []. rewrite app_nil_r.
    split; [reflexivity |]. split; [simpl; lia |]. split; [lia |].
    split; [reflexivity |]. intros p x r H. destruct H.
  - rewrite launchLoop_step. cbv zeta.
    destruct (puppeteer_launch env t (isProduction env) execPath) as [b0 | err].
    + exists [launched env execPath (Return b0)]. unfold launched. simpl.
      split; [reflexivity |]. split; [lia |]. split; [lia |]. split; [reflexivity |].
      intros p x r [H | []]. injection H as Hp Hx Hr. split; congruence.
    + destruct ((i <? retries - 1)%nat && isTransient err) eqn:Hretry.
      * apply andb_prop in Hretry. destruct Hretry as [Hlt _]. apply Nat.ltb_lt in Hlt.
        destruct (IH (i + 1)
                    (t ++ [launched env execPath (Throw err); retryWarning i; Timeout 200]))
          as (s & Hs & Hcount & Hone & Hwait & Hsame); [lia |].
        exists (launched env execPath (Throw err) :: retryWarning i :: Timeout 200 :: s).
        split; [rewrite Hs, <- app_assoc; reflexivity |].
        unfold launched, retryWarning. simpl.
        split; [lia |]. split; [lia |]. split.
        -- rewrite Hwait. assert (1 <= launchCount s) by (apply Hone; lia). lia.
        -- intros p x r [H | [H | [H | H]]]; try discriminate H.
           ++ injection H as Hp Hx Hr. split; congruence.
           ++ exact (Hsame p x r H).
      * exists [launched env execPath (Throw err)]. unfold launched. simpl.
        split; [reflexivity |]. split; [lia |]. split; [lia |]. split; [reflexivity |].
        intros p x r [H | []]. injection H as Hp Hx Hr. split; congruence.
Qed.

Lemma cons_eq_inv {A : Type} (a b : A) (l l' : list A) :
  a :: l = b :: l' -> a = b /\ l = l'.
Proof. intros H. injection H as Ha Hl. split; assumption. Qed.

(** Between two launches the loop warns and waits 200 ms, once, and it
    waits at no other time. *)
Lemma launchLoop_pauses (env : Env) (execPath : string) (retries todo : nat) :
  forall (i : nat) (t : trace),
  i + todo = retries ->
  exists s,
    snd (launchLoop env execPath retries i todo t) = t ++ s /\
    (0 < todo -> exists r rest, s = launched env execPath r :: rest) /\
    (forall pre p1 x1 r1 mid p2 x2 r2 post,
       s = pre ++ Launch p1 x1 r1 :: mid ++ Launch p2 x2 r2 :: post ->
       launchCount mid = 0 ->
       mid = [retryWarning (i + launchCount pre); Timeout 200]) /\
    (forall pre ms post,
       s = pre ++ Timeout ms :: post ->
       ms = 200 /\ 1 <= launchCount pre /\
       exists r rest, post = launched env execPath r :: rest).
Proof.
  induction todo as [| todo IH]; intros i t Hi.
  - exists []. rewrite app_nil_r.
    split; [reflexivity |]. split; [lia |]. split.
    + intros pre p1 x1 r1 mid p2 x2 r2 post H. destruct pre; discriminate H.
    + intros pre ms post H. destruct pre; discriminate H.
  - rewrite launchLoop_step. cbv zeta.
    assert (Hone : forall r0 : outcome Browser,
              (0 < S todo -> exists r rest,
                 [launched env execPath r0] = launched env execPath r :: rest) /\
              (forall pre p1 x1 r1 mid p2 x2 r2 post,
                 [launched env execPath r0] =
                 pre ++ Launch p1 x1 r1 :: mid ++ Launch p2 x2 r2 :: post ->
                 launchCount mid = 0 ->
                 mid = [retryWarning (i + launchCount pre); Timeout 200]) /\
              (forall pre ms post,
                 [launched env execPath r0] = pre ++ Timeout ms :: post ->
                 ms = 200 /\ 1 <= launchCount pre /\
                 exists r rest, post = launched env execPath r :: rest)).
    { intros r0. split; [intros _; exists r0, []; reflexivity |]. split.
      - intros pre p1 x1 r1 mid p2 x2 r2 post H.
        apply (f_equal (@List.length event)) in H.
        rewrite !List.length_app in H. simpl in H.
        rewrite !List.length_app in H. simpl in H. lia.
      - intros pre ms post H.
        destruct pre as [| x pre']; simpl in H; [discriminate H |].
        apply cons_eq_inv in H; destruct H as [_ H]. destruct pre'; discriminate H. }
    destruct (puppeteer_launch env t (isProduction env) execPath) as [b0 | err].
    + exists [launched env execPath (Return b0)]. split; [reflexivity | apply Hone].
    + destruct ((i <? retries - 1)%nat && isTransient err) eqn:Hretry.
      * apply andb_prop in Hretry. destruct Hretry as [Hlt _]. apply Nat.ltb_lt in Hlt.
        destruct (IH (i + 1)
                    (t ++ [launched env execPath (Throw err); retryWarning i; Timeout 200]))
          as (s & Hs & Hfirst & Hbetween & Hwait); [lia |].
        destruct Hfirst as (r' & rest' & Hrest'); [lia |].
        exists (launched env execPath (Throw err) :: retryWarning i :: Timeout 200 :: s).
        split; [rewrite Hs, <- app_assoc; reflexivity |].
        split; [intros _; eexists; eexists; reflexivity |].
        split.
        -- intros pre p1 x1 r1 mid p2 x2 r2 post H Hmid.
           destruct pre as [| y1 pre1]; simpl in H.
           ++ apply cons_eq_inv in H; destruct H as [_ H].
              destruct mid as [| m1 mid1]; simpl in H; [discriminate H |].
              apply cons_eq_inv in H; destruct H as [Hm1 H]; subst m1.
              destruct mid1 as [| m2 mid2]; simpl in H; [discriminate H |].
              apply cons_eq_inv in H; destruct H as [Hm2 H]; subst m2.
              destruct mid2 as [| m3 mid3]; simpl in H.
              ** simpl. rewrite Nat.add_0_r. reflexivity.
              ** rewrite Hrest' in H. apply cons_eq_inv in H; destruct H as [Hm3 _]; subst m3.
                 unfold retryWarning, launched in Hmid. simpl in Hmid. discriminate Hmid.
           ++ apply cons_eq_inv in H; destruct H as [Hy1 H]; subst y1.
              destruct pre1 as [| y2 pre2]; simpl in H; [discriminate H |].
              apply cons_eq_inv in H; destruct H as [Hy2 H]; subst y2.
              destruct pre2 as [| y3 pre3]; simpl in H; [discriminate H |].
              apply cons_eq_inv in H; destruct H as [Hy3 H]; subst y3.
              rewrite (Hbetween _ _ _ _ _ _ _ _ _ H Hmid).
              unfold launched, retryWarning at 2. simpl launchCount.
              replace (i + S (launchCount pre3)) with (i + 1 + launchCount pre3) by lia.
              reflexivity.
        -- intros pre ms post H.
           destruct pre as [| y1 pre1]; simpl in H; [discriminate H |].
           apply cons_eq_inv in H; destruct H as [Hy1 H]; subst y1.
           destruct pre1 as [| y2 pre2]; simpl in H; [discriminate H |].
           apply cons_eq_inv in H; destruct H as [Hy2 H]; subst y2.
           destruct pre2 as [| y3 pre3]; simpl in H.
           ++ apply cons_eq_inv in H; destruct H as [Hms Hpost]. injection Hms as Hms. subst ms post.
              split; [reflexivity |]. split; [unfold launched; simpl; lia |].
              exists r', rest'. exact Hrest'.
           ++ apply cons_eq_inv in H; destruct H as [Hy3 H]; subst y3.
              destruct (Hwait _ _ _ H) as (Hms & _ & Hnext).
              split; [exact Hms |]. split; [unfold launched; simpl; lia | exact Hnext].
      * exists [launched env execPath (Throw err)]. split; [reflexivity | apply Hone].
Qed.

(** What [getExecutablePath] adds to a trace is nothing, or the one call of
    [chromium.executablePath]. *)
Lemma getExecutablePath_event (env : Env) (t : trace) :
  exists s0, snd (getExecutablePath env t) = t ++ s0 /\
             (s0 = [] \/ exists r, s0 = [ExecutablePath r]).
Proof.
  unfold getExecutablePath.
  destruct (isProduction env).
  - eexists. split; [reflexivity |]. right. eexists. reflexivity.
  - exists []. rewrite app_nil_r. split; [| left; reflexivity].
    destruct (truthy (PUPPETEER_EXECUTABLE_PATH env)); [reflexivity |].
    destruct (find (existsSync env) paths); reflexivity.
Qed.

(** An event that is no call of [chromium.executablePath] lies behind the
    events of [getExecutablePath]. *)
Lemma behind_path_events (s0 s pre post : trace) (x : event) :
  (s0 = [] \/ exists r, s0 = [ExecutablePath r]) ->
  (forall r, x <> ExecutablePath r) ->
  s0 ++ s = pre ++ x :: post ->
  exists pre', pre = s0 ++ pre' /\ s = pre' ++ x :: post /\
               launchCount pre = launchCount pre'.
Proof.
  intros [Hs0 | (r & Hs0)] Hx H; subst s0; simpl in *.
  - exists pre. repeat split. exact H.
  - destruct pre as [| y pre']; simpl in H.
    + injection H as H _. destruct (Hx r). symmetry. exact H.
    + injection H as Hy H. subst y. exists pre'. repeat split. exact H.
Qed.

(** X9. For any number of tries, [baseLaunchBrowser] makes at most that
    many launch attempts, each of them in the mode of the process and with
    the executable path that [getExecutablePath] resolved. Between two
    consecutive attempts lie the warning and one wait of 200 ms, nothing
    else; and every wait is one of 200 ms that follows an attempt and is
    followed at once by the next. So the time spent waiting is 200 ms for
    every attempt after the first, and never more than 200 ms times the
    tries less one (400 ms with the default). *)
Theorem baseLaunchBrowser_waits (env : Env) (retries : nat) (t : trace) :
  exists s,
    snd (baseLaunchBrowser env retries t) = t ++ s /\
    launchCount s <= retries /\
    (forall p x r, In (Launch p x r) s ->
       p = isProduction env /\ fst (getExecutablePath env t) = Return x) /\
    (forall pre p1 x1 r1 mid p2 x2 r2 post,
       s = pre ++ Launch p1 x1 r1 :: mid ++ Launch p2 x2 r2 :: post ->
       launchCount mid = 0 ->
       mid = [retryWarning (launchCount pre); Timeout 200]) /\
    (forall pre ms post,
       s = pre ++ Timeout ms :: post ->
       ms = 200 /\ 1 <= launchCount pre /\
       exists p x r rest, post = Launch p x r :: rest) /\
    totalWait s = 200 * (launchCount s - 1) /\
    totalWait s <= 200 * (retries - 1).
Proof.
  unfold baseLaunchBrowser, bind.
  destruct (getExecutablePath_event env t) as (s0 & Hs0 & Hshape).
  assert (Hquiet : launchCount s0 = 0 /\ totalWait s0 = 0 /\
                   (forall p x r, ~ In (Launch p x r) s0) /\
                   (forall pre x post, s0 = pre ++ x :: post -> exists r, x = ExecutablePath r)).
  { destruct Hshape as [H | (r0 & H)]; subst s0; simpl.
    - split; [reflexivity |]. split; [reflexivity |]. split.
      + intros p x r H. exact H.
      + intros pre x post H. destruct pre; discriminate H.
    - split; [reflexivity |]. split; [reflexivity |]. split.
      + intros p x r [H | H]; [discriminate H | exact H].
      + intros pre x post H. destruct pre as [| y pre']; simpl in H.
        * apply cons_eq_inv in H. destruct H as [H _]. exists r0. congruence.
        * apply cons_eq_inv in H. destruct H as [_ H]. destruct pre'; discriminate H. }
  destruct Hquiet as (Hc0 & Hw0 & Hno0 & Honly0).
  destruct (getExecutablePath env t) as [[execPath | e] t0]; simpl in Hs0; subst t0.
  - destruct (launchLoop_waits env execPath retries retries 0 (t ++ s0) eq_refl)
      as (s & Hs & Hcount & _ & Hwait & Hsame).
    destruct (launchLoop_pauses env execPath retries retries 0 (t ++ s0) eq_refl)
      as (s' & Hs' & _ & Hbetween & Hpause).
    assert (Heq : s' = s) by (apply (app_inv_head (t ++ s0)); congruence). subst s'.
    exists (s0 ++ s). split; [rewrite Hs, app_assoc; reflexivity |].
    rewrite launchCount_app, totalWait_app, Hc0, Hw0. simpl.
    split; [exact Hcount |].
    split.
    { intros p x r H. apply in_app_or in H.
      destruct H as [H | H]; [destruct (Hno0 _ _ _ H) |].
      destruct (Hsame _ _ _ H) as [Hp Hx]. split; congruence. }
    split.
    { intros pre p1 x1 r1 mid p2 x2 r2 post H Hmid.
      assert (Hx : forall r, Launch p1 x1 r1 <> ExecutablePath r) by (intros r E; discriminate E).
      destruct (behind_path_events s0 s pre _ _ Hshape Hx H) as (pre' & _ & H' & Hn).
      rewrite Hn. exact (Hbetween _ _ _ _ _ _ _ _ _ H' Hmid). }
    split.
    { intros pre ms post H.
      assert (Hx : forall r, Timeout ms <> ExecutablePath r) by (intros r E; discriminate E).
      destruct (behind_path_events s0 s pre _ _ Hshape Hx H) as (pre' & _ & H' & Hn).
      destruct (Hpause _ _ _ H') as (Hms & Hpre & r & rest & Hpost).
      split; [exact Hms |]. split; [lia |].
      exists (isProduction env), execPath, r, rest. exact Hpost. }
    split; [exact Hwait | rewrite Hwait; lia].
  - exists s0. split; [reflexivity |]. rewrite Hc0, Hw0.
    split; [lia |].
    split; [intros p x r H; destruct (Hno0 _ _ _ H) |].
    split.
    { intros pre p1 x1 r1 mid p2 x2 r2 post H.
      destruct (Honly0 _ _ _ H) as (r & Hr). discriminate Hr. }
    split.
    { intros pre ms post H.
      destruct (Honly0 _ _ _ H) as (r & Hr). discriminate Hr. }
    split; [reflexivity | lia].
Qed.

(* ================================================================= *)
(** ** The executable and the transient errors *)

Lemma find_split {A : Type} (f : A -> bool) (l : list A) (x : A) :
  find f l = Some x ->
  f x = true /\
  exists pre post, l = pre ++ x :: post /\ forall y, In y pre -> f y = false.
Proof.
  induction l as [| a l IH]; simpl; [discriminate |].
  destruct (f a) eqn:Ha.
  - intros H. injection H as H. subst a. split; [exact Ha |].
    exists [], l. split; [reflexivity |]. intros y [].
  - intros H. destruct (IH H) as (Hx & pre & post & Hl & Hpre).
    split; [exact Hx |]. exists (a :: pre), post. split; [rewrite Hl; reflexivity |].
    intros y [Hy | Hy]; [subst y; exact Ha | exact (Hpre y Hy)].
Qed.

(** X10. Outside production [getExecutablePath] makes no call and never
    invents a path: what it returns is the override variable, or else one
    of the four listed install paths, and then one that exists on the file
    system with no listed path before it that exists. *)
Theorem getExecutablePath_sound (env : Env) (t t' : trace) (path : string) :
  isProduction env = false ->
  getExecutablePath env t = (Return path, t') ->
  t' = t /\
  (PUPPETEER_EXECUTABLE_PATH env = Some path \/
   (truthy (PUPPETEER_EXECUTABLE_PATH env) = false /\
    existsSync env path = true /\
    exists pre post, paths = pre ++ path :: post /\
                     forall p, In p pre -> existsSync env p = false)).
Proof.
  intros Hprod. unfold getExecutablePath. rewrite Hprod.
  destruct (truthy (PUPPETEER_EXECUTABLE_PATH env)) eqn:Htruthy.
  - intros H. injection H as Hp Ht. subst. split; [reflexivity |]. left.
    destruct (PUPPETEER_EXECUTABLE_PATH env) as [[| c override] |];
      try discriminate Htruthy. reflexivity.
  - destruct (find (existsSync env) paths) as [found |] eqn:Hfind; [| discriminate].
    intros H. injection H as Hp Ht. subst. split; [reflexivity |]. right.
    split; [reflexivity |]. exact (find_split _ _ _ Hfind).
Qed.

Lemma getExecutablePath_sound_witness :
  ([] : trace) = [] /\
  (PUPPETEER_EXECUTABLE_PATH idealEnv = Some "/usr/bin/google-chrome"%string \/
   (truthy (PUPPETEER_EXECUTABLE_PATH idealEnv) = false /\
    existsSync idealEnv "/usr/bin/google-chrome" = true /\
    exists pre post, paths = pre ++ "/usr/bin/google-chrome"%string :: post /\
                     forall p, In p pre -> existsSync idealEnv p = false)).
Proof.
  exact (getExecutablePath_sound idealEnv [] [] "/usr/bin/google-chrome" eq_refl eq_refl).
Defined.


Local Open Scope string_scope.

Lemma prefix_spec (p s : string) : prefix p s = true <-> exists post, s = p ++ post.
Proof.
  revert s. induction p as [| a p IH]; intros [| b s]; simpl.
  - split; [intros _; exists ""; reflexivity | reflexivity].
  - split; [intros _; exists (String b s); reflexivity | reflexivity].
  - split; [discriminate | intros (post & H); discriminate H].
  - destruct (ascii_dec a b) as [Hab | Hab].
    + subst b. rewrite IH. split; intros (post & H); exists post.
      * rewrite H. reflexivity.
      * injection H as H. exact H.
    + split; [discriminate |]. intros (post & H). injection H as H _. congruence.
Qed.

Lemma includes_spec (s needle : string) :
  includes s needle = true <-> contains s needle.
Proof.
  induction s as [| a s IH]; cbn [includes].
  - rewrite orb_false_r, prefix_spec. split.
    + intros (post & H). exists "", post. exact H.
    + intros (pre & post & H). destruct pre; [| discriminate H]. exists post. exact H.
  - rewrite orb_true_iff, prefix_spec, IH. split.
    + intros [(post & H) | (pre & post & H)].
      * exists "", post. exact H.
      * exists (String a pre), post. simpl. rewrite H. reflexivity.
    + intros (pre & post & H). destruct pre as [| b pre]; simpl in H.
      * left. exists post. exact H.
      * right. injection H as _ H. exists pre, post. exact H.
Qed.

(** X11. A failed launch counts as transient exactly when the code of its
    error is ETXTBSY or the text ETXTBSY stands somewhere in its message,
    at the start, in the middle or at the end; the comparison is by case,
    so an error that only mentions "etxtbsy" is not retried. *)
Theorem isTransient_spec (err : JsError) :
  (isTransient err = true <->
   err_code err = Some "ETXTBSY" \/ contains (err_message err) "ETXTBSY") /\
  isTransient (Error "spawn etxtbsy") = false.
Proof.
  split; [| reflexivity].
  unfold isTransient. rewrite orb_true_iff, includes_spec.
  destruct (err_code err) as [c |].
  - rewrite String.eqb_eq. split; intros [H | H]; auto; left; congruence.
  - split; intros [H | H]; auto; discriminate H.
Qed.

(* ================================================================= *)
(** ** The letters, in order *)

Local Open Scope float_scope.

(** X12. The letters follow the grade points: a grade point that is not
    below another never gets a lower letter, in the order R, E, D, C, B, A,
    EX. *)
Theorem getGradeLetter_monotone (p q : number) :
  (p <=? q) = true ->
  letterRank (getGradeLetter p) <= letterRank (getGradeLetter q).
Proof.
  intros Hpq.
  assert (Hup : forall k, (k <=? p) = true -> (k <=? q) = true)
    by (intros k Hk; exact (number_leb_trans k p q Hk Hpq)).
  unfold getGradeLetter.
  destruct (10 <=? p) eqn:Hp10; [rewrite (Hup _ Hp10); apply Nat.le_refl |].
  destruct (9 <=? p) eqn:Hp9.
  { rewrite (Hup _ Hp9). destruct (10 <=? q); cbv; lia. }
  destruct (8 <=? p) eqn:Hp8.
  { rewrite (Hup _ Hp8). destruct (10 <=? q), (9 <=? q); cbv; lia. }
  destruct (7 <=? p) eqn:Hp7.
  { rewrite (Hup _ Hp7). destruct (10 <=? q), (9 <=? q), (8 <=? q); cbv; lia. }
  destruct (6 <=? p) eqn:Hp6.
  { rewrite (Hup _ Hp6).
    destruct (10 <=? q), (9 <=? q), (8 <=? q), (7 <=? q); cbv; lia. }
  destruct (5 <=? p) eqn:Hp5.
  { rewrite (Hup _ Hp5).
    destruct (10 <=? q), (9 <=? q), (8 <=? q), (7 <=? q), (6 <=? q); cbv; lia. }
  destruct (10 <=? q), (9 <=? q), (8 <=? q), (7 <=? q), (6 <=? q), (5 <=? q); cbv; lia.
Qed.

Lemma getGradeLetter_monotone_witness :
  letterRank (getGradeLetter 6.5) <= letterRank (getGradeLetter 9).
Proof.
  apply (getGradeLetter_monotone 6.5 9). reflexivity.
Defined.

Local Close Scope float_scope.

(* ================================================================= *)
(** ** The title and the case of the semester *)

Local Open Scope string_scope.

Lemma upper_char_facts (c : ascii) :
  upper_char (upper_char c) = upper_char c /\
  range "1" "4" (upper_char c) = range "1" "4" c /\
  range "1" "3" (upper_char c) = range "1" "3" c /\
  (range "1" "4" c = true -> upper_char c = c).
Proof.
  destruct c as [[] [] [] [] [] [] [] []]; vm_compute; repeat split; congruence.
Qed.

Lemma toUpperCase_idempotent (s : string) : toUpperCase (toUpperCase s) = toUpperCase s.
Proof.
  induction s as [| c s IH]; simpl; [reflexivity |].
  rewrite IH, (proj1 (upper_char_facts c)). reflexivity.
Qed.

Lemma one_of_i_upper (set : string) (c : ascii) :
  one_of_i set (upper_char c) = one_of_i set c.
Proof. unfold one_of_i. rewrite (proj1 (upper_char_facts c)). reflexivity. Qed.

Lemma substring_upper (n m : nat) (s : string) :
  substring n m (toUpperCase s) = toUpperCase (substring n m s).
Proof.
  revert n m. induction s as [| c s IH]; intros n m.
  - destruct n, m; reflexivity.
  - destruct n as [| n].
    + destruct m as [| m]; simpl; [reflexivity |]. rewrite IH. reflexivity.
    + simpl. apply IH.
Qed.

Section Caseless.
Context {R R' : Type}.
Variable g : R -> R'.

(** The continuation [k'] does on the upper-cased input what [k] does on
    the input. *)
Let follows (k : @cont R) (k' : @cont R') : Prop :=
  forall i s caps,
    k' i (toUpperCase s) (map toUpperCase caps) = option_map g (k i s caps).

Lemma plus_more_upper (cls : ascii -> bool) (k : @cont R) (k' : @cont R') :
  (forall c, cls (upper_char c) = cls c) -> follows k k' ->
  forall s i caps,
    plus_more cls i (toUpperCase s) (map toUpperCase caps) k'
    = option_map g (plus_more cls i s caps k).
Proof.
  intros Hcls Hk s. induction s as [| c s IH]; intros i caps; simpl.
  - apply (Hk i "" caps).
  - rewrite Hcls. destruct (cls c).
    + rewrite IH. destruct (plus_more cls (S i) s caps k); [reflexivity |].
      apply (Hk i (String c s) caps).
    + apply (Hk i (String c s) caps).
Qed.

Lemma exec_upper (r : regex) :
  caseless r ->
  forall (k : @cont R) (k' : @cont R'), follows k k' ->
  forall i s caps,
    exec r i (toUpperCase s) (map toUpperCase caps) k'
    = option_map g (exec r i s caps k).
Proof.
  induction r as [| | cls | r1 IH1 r2 IH2 | r IH | cls | r IH];
    intros Hr k k' Hk i s caps; simpl in *.
  - apply Hk.
  - destruct i; [apply Hk | reflexivity].
  - destruct s as [| c s]; simpl; [reflexivity |].
    rewrite Hr. destruct (cls c); [apply Hk | reflexivity].
  - destruct Hr as [Hr1 Hr2].
    apply IH1; [exact Hr1 |]. intros i' s' caps'. apply IH2; assumption.
  - rewrite (IH Hr k k' Hk).
    destruct (exec r i s caps k); [reflexivity | apply Hk].
  - destruct s as [| c s]; simpl; [reflexivity |].
    rewrite Hr. destruct (cls c); [| reflexivity].
    apply plus_more_upper; assumption.
  - apply (IH Hr). intros i' s' caps'.
    rewrite substring_upper.
    change [toUpperCase (substring 0 (i' - i) s)]
      with (map toUpperCase [substring 0 (i' - i) s]).
    rewrite <- map_app. apply Hk.
Qed.
End Caseless.

Lemma match_at_upper (r : regex) (i : nat) (s : string) :
  caseless r ->
  match_at r i (toUpperCase s) = option_map (map toUpperCase) (match_at r i s).
Proof.
  intros Hr. unfold match_at.
  exact (exec_upper (map toUpperCase) r Hr (fun _ _ caps => Some caps)
           (fun _ _ caps => Some caps) (fun i' s' caps' => eq_refl) i s []).
Qed.

Lemma regex_match_upper (r : regex) (s : string) :
  caseless r ->
  regex_match (toUpperCase s) r = option_map (map toUpperCase) (regex_match s r).
Proof.
  intros Hr. unfold regex_match. generalize 0.
  induction s as [| c s IH]; intros i; simpl.
  - change "" with (toUpperCase "") at 1. rewrite (match_at_upper r i "" Hr).
    destruct (match_at r i ""); reflexivity.
  - change (String (upper_char c) (toUpperCase s)) with (toUpperCase (String c s)).
    rewrite (match_at_upper r i (String c s) Hr).
    destruct (match_at r i (String c s)); [reflexivity | apply IH].
Qed.

Lemma year_re_caseless : caseless year_re.
Proof.
  simpl. repeat split; intros c;
    try apply one_of_i_upper; apply (upper_char_facts c).
Qed.

Lemma sem_re_caseless : caseless sem_re.
Proof.
  simpl. repeat split; intros c;
    try apply one_of_i_upper; apply (upper_char_facts c).
Qed.

Lemma titleText_upper (semesterId : string) (grades : list Grade) :
  titleText (toUpperCase semesterId) grades = titleText semesterId grades.
Proof.
  unfold titleText.
  rewrite (regex_match_upper year_re semesterId year_re_caseless),
          (regex_match_upper sem_re semesterId sem_re_caseless),
          toUpperCase_idempotent.
  assert (Hsem : match option_map (map toUpperCase) (regex_match semesterId sem_re) with
                 | Some semMatch => group 1 semMatch
                 | None => ""
                 end
                 = match regex_match semesterId sem_re with
                   | Some semMatch => group 1 semMatch
                   | None => ""
                   end).
  { destruct (regex_match semesterId sem_re) as [sc |] eqn:Hs; [| reflexivity].
    destruct (regex_match_leftmost _ _ _ Hs) as (j & (pre & w & post & _ & _ & Hm) & _).
    destruct (sem_re_captures _ _ _ Hm) as (n & Hsc & Hn). subst sc. simpl.
    assert (Hn4 : range "1" "4" n = true).
    { clear - Hn. destruct n as [[] [] [] [] [] [] [] []]; vm_compute in Hn |- *;
        congruence. }
    rewrite (proj2 (proj2 (proj2 (upper_char_facts n))) Hn4). reflexivity. }
  rewrite Hsem.
  destruct (regex_match semesterId year_re) as [yc |] eqn:Hy; [| reflexivity].
  destruct (regex_match_leftmost _ _ _ Hy) as (i & (pre & w & post & _ & _ & Hm) & _).
  destruct (year_re_captures _ _ _ Hm) as (y & d & Hyc & _ & Hd). subst yc. simpl.
  rewrite (proj1 (upper_char_facts y)),
          (proj2 (proj2 (proj2 (upper_char_facts d))) Hd).
  reflexivity.
Qed.

(** X13. On ASCII text the title does not depend on the case of the
    semester: two ASCII [semesterId]s with the same upper-case form, that
    is, two that differ in the case of the letters a-z only, get the same
    title with the same grades. (Outside ASCII the built-in upper-case form
    and the caseless match of the patterns part ways.) *)
Theorem titleText_case_insensitive (s1 s2 : string) (grades : list Grade) :
  isAscii s1 = true -> isAscii s2 = true ->
  toUpperCase s1 = toUpperCase s2 ->
  titleText s1 grades = titleText s2 grades.
Proof.
  intros _ _ H. rewrite <- (titleText_upper s1), <- (titleText_upper s2), H. reflexivity.
Qed.

Lemma titleText_case_insensitive_witness :
  titleText "ay24-e3-s2" scenarioA = titleText "AY24-E3-S2" scenarioA.
Proof.
  apply (titleText_case_insensitive "ay24-e3-s2" "AY24-E3-S2" scenarioA); reflexivity.
Defined.

(* ================================================================= *)
(** ** The end of the title *)

Lemma ends_with_tail (a x b post : string) :
  a ++ x = b ++ post -> String.length x <= String.length post -> endsWith post x.
Proof.
  revert b. induction a as [| c a IH]; intros b Heq Hlen; simpl in Heq.
  - destruct b as [| c' b]; simpl in Heq.
    + exists "". rewrite Heq. reflexivity.
    + subst x. simpl in Hlen. rewrite length_append in Hlen. lia.
  - destruct b as [| c' b]; simpl in Heq.
    + exists (String c a). symmetry. exact Heq.
    + injection Heq as _ Heq. exact (IH b Heq Hlen).
Qed.

Lemma skip_append (a x : string) : skip (String.length a) (a ++ x) = x.
Proof.
  induction a as [| c a IH]; simpl; [destruct x; reflexivity | exact IH].
Qed.

Lemma tail_of_append (a x s : string) :
  a ++ x = s -> skip (String.length s - String.length x) s = x.
Proof.
  intros H. subst s. rewrite length_append.
  replace (String.length a + String.length x - String.length x) with (String.length a)
    by lia.
  apply skip_append.
Qed.

(** After a doubled " RESULTS" a text that ends in " RESULTS" either stops
    or goes on to another " RESULTS". *)
Lemma after_doubled_results (a post : string) :
  a ++ " RESULTS" = " RESULTS RESULTS" ++ post ->
  post = "" \/ endsWith post " RESULTS".
Proof.
  intros Heq.
  destruct post as [| c1 [| c2 [| c3 [| c4 [| c5 [| c6 [| c7 [| c8 post]]]]]]]];
    try (left; reflexivity);
    try (right; apply (ends_with_tail _ _ _ _ Heq); simpl; lia);
    apply tail_of_append in Heq; cbv in Heq; discriminate Heq.
Qed.

Lemma replace_cons (c : ascii) (s pat rep : string) :
  replace (String c s) pat rep =
  if prefix pat (String c s) then rep ++ skip (String.length pat) (String c s)
  else String c (replace s pat rep).
Proof. reflexivity. Qed.

Lemma fallbackTitle_ends (semesterId : string) :
  endsWith (fallbackTitle semesterId) " RESULTS".
Proof.
  unfold fallbackTitle. generalize (toUpperCase semesterId). intros u.
  induction u as [| c u IH].
  - exists "". reflexivity.
  - change (String c u ++ " RESULTS") with (String c (u ++ " RESULTS")).
    rewrite replace_cons.
    destruct (prefix " RESULTS RESULTS" (String c (u ++ " RESULTS"))) eqn:Hp.
    + apply prefix_spec in Hp. destruct Hp as (post & Hpost).
      rewrite Hpost, skip_append.
      destruct (after_doubled_results (String c u) post Hpost) as [Hnil | (p & Hend)].
      * subst post. exists "". reflexivity.
      * exists (" RESULTS" ++ p). rewrite Hend, append_assoc. reflexivity.
    + destruct IH as (p & Hend). exists (String c p). rewrite Hend. reflexivity.
Qed.

(** X14. Every title ends in " RESULTS", whatever the [semesterId] and the
    grades: the composed titles by their last part, and the fallback ones
    also after the doubled " RESULTS RESULTS" was replaced, wherever in the
    text it stood. *)
Theorem titleText_ends_with_results (semesterId : string) (grades : list Grade) :
  endsWith (titleText semesterId grades) " RESULTS".
Proof.
  unfold titleText.
  match goal with
  | |- endsWith (match ?y with _ => _ end) _ =>
      generalize y; intros yearStr
  end.
  match goal with
  | |- endsWith (match yearStr with
                 | "" => _
                 | String _ _ => match ?n with _ => _ end
                 end) _ =>
      generalize n; intros semStr
  end.
  destruct yearStr as [| y yearStr]; [apply fallbackTitle_ends |].
  destruct semStr as [| n semStr]; [apply fallbackTitle_ends |].
  exists (String y yearStr ++ " SEMESTER-" ++ String n semStr).
  rewrite !append_assoc. reflexivity.
Qed.

(* ================================================================= *)
(** ** Where the errors come from *)

Local Open Scope list_scope.

Lemma launchLoop_provenance (env : Env) (execPath : string) (retries todo : nat) :
  forall (i : nat) (t : trace) (e : JsError),
    fst (launchLoop env execPath retries i todo t) = Throw e ->
    exists s ev,
      snd (launchLoop env execPath retries i todo t) = t ++ s /\
      In ev s /\ thrownBy ev = Some e.
Proof.
  induction todo as [| todo IH]; intros i t e; [discriminate |].
  rewrite launchLoop_step. cbv zeta.
  destruct (puppeteer_launch env t (isProduction env) execPath) as [b | err];
    [discriminate |].
  destruct ((i <? retries - 1)%nat && isTransient err).
  - intros H. destruct (IH _ _ _ H) as (s & ev & Hs & Hin & Hev).
    exists (launched env execPath (Throw err) :: retryWarning i :: Timeout 200 :: s), ev.
    split; [rewrite Hs, <- app_assoc; reflexivity |].
    split; [right; right; right; exact Hin | exact Hev].
  - intros H. injection H as H. subst err.
    exists [launched env execPath (Throw e)], (launched env execPath (Throw e)).
    split; [reflexivity |]. split; [left; reflexivity | reflexivity].
Qed.

Lemma baseLaunchBrowser_provenance (env : Env) (retries : nat) (t : trace) (e : JsError) :
  fst (baseLaunchBrowser env retries t) = Throw e ->
  exists s,
    snd (baseLaunchBrowser env retries t) = t ++ s /\
    (e = noBrowserFound \/ exists ev, In ev s /\ thrownBy ev = Some e).
Proof.
  unfold baseLaunchBrowser, bind, getExecutablePath.
  destruct (isProduction env).
  - unfold call. destruct (chromium_executablePath env t) as [execPath | e0] eqn:Hc.
    + intros H. destruct (launchLoop_provenance _ _ _ _ _ _ _ H) as (s & ev & Hs & Hin & Hev).
      exists (ExecutablePath (Return execPath) :: s).
      split; [rewrite Hs, <- app_assoc; reflexivity |].
      right. exists ev. split; [right; exact Hin | exact Hev].
    + simpl. intros H. injection H as H. subst e0.
      exists [ExecutablePath (Throw e)]. split; [reflexivity |].
      right. exists (ExecutablePath (Throw e)). split; [left; reflexivity | reflexivity].
  - assert (Hret : forall execPath,
              fst (launchLoop env execPath retries 0 retries t) = Throw e ->
              exists s, snd (launchLoop env execPath retries 0 retries t) = t ++ s /\
                        (e = noBrowserFound \/ exists ev, In ev s /\ thrownBy ev = Some e)).
    { intros execPath H.
      destruct (launchLoop_provenance _ _ _ _ _ _ _ H) as (s & ev & Hs & Hin & Hev).
      exists s. split; [exact Hs |]. right. exists ev. split; assumption. }
    destruct (truthy (PUPPETEER_EXECUTABLE_PATH env)); [apply Hret |].
    destruct (find (existsSync env) paths) as [path |]; [apply Hret |].
    simpl. intros H. injection H as H. subst e.
    exists []. split; [rewrite app_nil_r; reflexivity |]. left. reflexivity.
Qed.

Lemma baseLaunchBrowser_default_defined (env : Env) (t : trace) :
  fst (baseLaunchBrowser env defaultRetries t) <> Return None.
Proof.
  unfold baseLaunchBrowser, bind.
  destruct (getExecutablePath env t) as [[execPath | e] t0]; [| discriminate].
  apply launchLoop_defined; unfold defaultRetries; lia.
Qed.

Lemma printPdf_provenance (env : Env) (html : Html) (label : string) (t : trace)
    (e : JsError) :
  fst (printPdf env html label t) = Throw e ->
  exists s,
    snd (printPdf env html label t) = t ++ s /\
    (e = noBrowserFound \/ exists ev, In ev s /\ thrownBy ev = Some e).
Proof.
  pose proof (baseLaunchBrowser_default_defined env t) as Hdef.
  pose proof (baseLaunchBrowser_provenance env defaultRetries t) as Hprov.
  destruct (baseLaunchBrowser_trace env defaultRetries t) as (s0 & Hs0 & _).
  destruct (baseLaunchBrowser env defaultRetries t) as [[[b0 |] | e0] t1] eqn:Hlaunch;
    simpl in Hs0, Hdef, Hprov; subst t1; [| congruence |].
  - destruct (printPdf_run env html label t _ b0 Hlaunch) as (render & body & Hrun & Heq).
    cbv zeta in Heq. rewrite Heq. simpl.
    set (rc := browser_close env ((t ++ s0) ++ render) b0).
    intros Hres.
    exists (s0 ++ render ++ [Close b0 rc]).
    split; [rewrite <- app_assoc; reflexivity |]. right.
    destruct rc as [u | e'] eqn:Hrc.
    + destruct Hrun as [(e1 & Hr & Hb) | [(page & e1 & Hr & Hb) | [(page & e1 & Hr & Hb)
                       | (page & pdf & Hr & Hb)]]]; subst render body;
        try discriminate Hres; injection Hres as Hres; subst e1;
        eexists; (split; [apply in_or_app; right; apply in_or_app; left | ]).
      * left. reflexivity.
      * reflexivity.
      * right. left. reflexivity.
      * reflexivity.
      * right. right. left. reflexivity.
      * reflexivity.
    + injection Hres as Hres. subst e'.
      exists (Close b0 (Throw e)).
      split; [apply in_or_app; right; apply in_or_app; right; left; reflexivity |].
      reflexivity.
  - rewrite (printPdf_not_launched env html label t _ e0 Hlaunch). simpl.
    intros H. injection H as H. subst e0.
    destruct (Hprov e eq_refl) as (s & Hs & Hfrom).
    apply app_inv_head in Hs. subst s.
    exists (s0 ++ [Console error label (Some e)]).
    split; [rewrite <- app_assoc; reflexivity |].
    destruct Hfrom as [Hno | (ev & Hin & Hev)]; [left; exact Hno |].
    right. exists ev. split; [apply in_or_app; left; exact Hin | exact Hev].
Qed.

(** X15. The handler invents no error and wraps none: whatever it raises
    is the error that a call of this very job raised (the browser
    executable, a launch, a page call, the release, the mail transport), or
    else the error of finding no browser installed. *)
Theorem worker_error_provenance (env : Env) (job : Job) (t : trace) (e : JsError) :
  fst (worker env job t) = Throw e ->
  exists s,
    snd (worker env job t) = t ++ s /\
    (e = noBrowserFound \/ exists ev, In ev s /\ thrownBy ev = Some e).
Proof.
  rewrite worker_branchOf.
  assert (Hreport : forall html label message done failed,
            fst (reportBranch env (printPdf env html label) message done failed
                   (t ++ [processing job])) = Throw e ->
            exists s,
              snd (reportBranch env (printPdf env html label) message done failed
                     (t ++ [processing job])) = t ++ s /\
              (e = noBrowserFound \/ exists ev, In ev s /\ thrownBy ev = Some e)).
  { intros html label message done failed. rewrite reportBranch_run.
    pose proof (printPdf_provenance env html label (t ++ [processing job])) as Hprov.
    destruct (printPdf_facts env html label (t ++ [processing job])) as (gen & Hgen & _).
    destruct (printPdf env html label (t ++ [processing job])) as [[pdf | e0] tg];
      simpl in Hgen, Hprov; subst tg.
    - destruct (transporter_sendMail env _ (message pdf)) as [u | e1];
        [intros H; discriminate H |].
      simpl. intros H. injection H as H. subst e1.
      exists (processing job :: gen ++ [SendMail (message pdf) (Throw e);
                                        Console error (failed e) None]).
      split; [simpl; rewrite <- !app_assoc; reflexivity |].
      right. exists (SendMail (message pdf) (Throw e)).
      split; [right; apply in_or_app; right; left; reflexivity | reflexivity].
    - simpl. intros H. injection H as H. subst e0.
      destruct (Hprov e eq_refl) as (s & Hs & Hfrom).
      apply app_inv_head in Hs. subst s.
      exists (processing job :: gen ++ [Console error (failed e) None]).
      split; [simpl; rewrite <- !app_assoc; reflexivity |].
      destruct Hfrom as [Hno | (ev & Hin & Hev)]; [left; exact Hno |].
      right. exists ev. split; [right; apply in_or_app; left; exact Hin | exact Hev]. }
  unfold branchOf.
  destruct (String.eqb (type (job_data job)) "EMAIL").
  - rewrite emailBranch_run.
    destruct (transporter_sendMail env _ (emailMessage (job_data job))) as [u | e1];
      [intros H; discriminate H |].
    simpl. intros H. injection H as H. subst e1.
    exists [processing job; SendMail (emailMessage (job_data job)) (Throw e)].
    split; [rewrite <- app_assoc; reflexivity |].
    right. exists (SendMail (emailMessage (job_data job)) (Throw e)).
    split; [right; left; reflexivity | reflexivity].
  - destruct (String.eqb (type (job_data job)) "RESULTS"); [apply Hreport |].
    destruct (String.eqb (type (job_data job)) "ATTENDANCE_REPORT"); [apply Hreport |].
    intros H. discriminate H.
Qed.

Lemma worker_error_provenance_witness :
  exists s,
    snd (worker mailDownEnv (sampleJob (sampleData "RESULTS" scenarioA [])) []) = [] ++ s /\
    (connectionRefused = noBrowserFound \/
     exists ev, In ev s /\ thrownBy ev = Some connectionRefused).
Proof.
  exact (worker_error_provenance mailDownEnv (sampleJob (sampleData "RESULTS" scenarioA []))
           [] connectionRefused eq_refl).
Defined.

(* ================================================================= *)
(** ** What is printed *)

Lemma launchPhase_no_content (s : trace) :
  Forall (fun e => launchPhase e = true) s ->
  forall page h r, ~ In (SetContent page h r) s.
Proof.
  intros Hall page h r Hin.
  rewrite Forall_forall in Hall. specialize (Hall _ Hin). discriminate Hall.
Qed.

Lemma printPdf_content (env : Env) (html : Html) (label : string) (t : trace) :
  exists s,
    snd (printPdf env html label t) = t ++ s /\
    forall page h r, In (SetContent page h r) s -> h = html.
Proof.
  destruct (baseLaunchBrowser_trace env defaultRetries t) as (s0 & Hs0 & Hall).
  pose proof (launchPhase_no_content s0 Hall) as Hno.
  destruct (baseLaunchBrowser env defaultRetries t) as [[[b0 |] | e] t1] eqn:Hlaunch;
    simpl in Hs0; subst t1.
  - destruct (printPdf_run env html label t _ b0 Hlaunch) as (render & body & Hrun & Heq).
    cbv zeta in Heq. rewrite Heq. simpl.
    eexists. split; [rewrite <- app_assoc; reflexivity |].
    intros page h r Hin.
    apply in_app_or in Hin. destruct Hin as [Hin | Hin]; [destruct (Hno _ _ _ Hin) |].
    apply in_app_or in Hin. destruct Hin as [Hin | [Hin | []]]; [| discriminate Hin].
    destruct Hrun as [(e1 & Hr & _) | [(pg & e1 & Hr & _) | [(pg & e1 & Hr & _)
                     | (pg & pdf & Hr & _)]]]; subst render; simpl in Hin;
      repeat (destruct Hin as [Hin | Hin]; [try discriminate Hin; congruence |]);
      destruct Hin.
  - rewrite (printPdf_undefined env html label t _ Hlaunch). simpl.
    eexists. split; [rewrite <- app_assoc; reflexivity |].
    intros page h r Hin.
    apply in_app_or in Hin. destruct Hin as [Hin | [Hin | []]];
      [destruct (Hno _ _ _ Hin) | discriminate Hin].
  - rewrite (printPdf_not_launched env html label t _ e Hlaunch). simpl.
    eexists. split; [rewrite <- app_assoc; reflexivity |].
    intros page h r Hin.
    apply in_app_or in Hin. destruct Hin as [Hin | [Hin | []]];
      [destruct (Hno _ _ _ Hin) | discriminate Hin].
Qed.

(** X16. A page is only ever given the report of the job at hand: every
    [page.setContent] call of a job carries the result document computed
    from the data of that job when the job is a RESULTS job, and its
    attendance document when it is an ATTENDANCE_REPORT job; no other job
    sets the content of a page. *)
Theorem worker_prints_own_report (env : Env) (job : Job) (t : trace) :
  let data := job_data job in
  exists s,
    snd (worker env job t) = t ++ s /\
    forall page h r,
      In (SetContent page h r) s ->
      (type data = "RESULTS"%string /\ h = ResultHtml (resultDocument data)) \/
      (type data = "ATTENDANCE_REPORT"%string /\ h = AttendanceHtml (attendanceDocument data)).
Proof.
  intros data. subst data. rewrite worker_branchOf.
  assert (Hreport : forall html label message done failed,
            exists s,
              snd (reportBranch env (printPdf env html label) message done failed
                     (t ++ [processing job])) = t ++ s /\
              forall page h r, In (SetContent page h r) s -> h = html).
  { intros html label message done failed. rewrite reportBranch_run.
    destruct (printPdf_content env html label (t ++ [processing job])) as (gen & Hgen & Hc).
    assert (Htail : forall tail,
              (forall page h r, ~ In (SetContent page h r) tail) ->
              forall page h r,
                In (SetContent page h r) (processing job :: gen ++ tail) -> h = html).
    { intros tail Hno page h r [Hin | Hin]; [discriminate Hin |].
      apply in_app_or in Hin. destruct Hin as [Hin | Hin];
        [exact (Hc _ _ _ Hin) | destruct (Hno _ _ _ Hin)]. }
    destruct (printPdf env html label (t ++ [processing job])) as [[pdf | e0] tg];
      simpl in Hgen; subst tg.
    - destruct (transporter_sendMail env _ (message pdf)) as [u | e1]; simpl;
        eexists; (split; [rewrite <- !app_assoc; reflexivity |]);
        apply Htail; intros page h r [H | [H | []]]; discriminate H.
    - simpl. eexists. split; [rewrite <- !app_assoc; reflexivity |].
      apply Htail. intros page h r [H | []]. discriminate H. }
  unfold branchOf.
  destruct (String.eqb (type (job_data job)) "EMAIL") eqn:He.
  - rewrite emailBranch_run.
    destruct (transporter_sendMail env _ (emailMessage (job_data job))); simpl;
      eexists; (split; [rewrite <- app_assoc; reflexivity |]);
      intros page h r Hin; simpl in Hin;
      repeat (destruct Hin as [Hin | Hin]; [discriminate Hin |]); destruct Hin.
  - destruct (String.eqb (type (job_data job)) "RESULTS") eqn:Hr.
    + apply String.eqb_eq in Hr.
      destruct (Hreport (ResultHtml (resultDocument (job_data job)))
                  "Puppeteer Launch Error:"%string (resultMessage (job_data job))
                  ("Result Email with PDF sent to " ++ recipient (job_data job))%string
                  (fun e => ("Failed to generate/send Result PDF for "
                             ++ recipient (job_data job) ++ ": " ++ err_message e)%string))
        as (s & Hs & Hc).
      exists s. split; [exact Hs |]. intros page h r Hin. left.
      split; [exact Hr | exact (Hc _ _ _ Hin)].
    + destruct (String.eqb (type (job_data job)) "ATTENDANCE_REPORT") eqn:Ha.
      * apply String.eqb_eq in Ha.
        destruct (Hreport (AttendanceHtml (attendanceDocument (job_data job)))
                    "Puppeteer Launch Error (Attendance):"%string
                    (attendanceMessage (job_data job))
                    ("Attendance Email with PDF sent to " ++ recipient (job_data job))%string
                    (fun e => ("Failed to generate/send Attendance PDF for "
                               ++ recipient (job_data job) ++ ": " ++ err_message e)%string))
          as (s & Hs & Hc).
        exists s. split; [exact Hs |]. intros page h r Hin. right.
        split; [exact Ha | exact (Hc _ _ _ Hin)].
      * exists [processing job]. split; [reflexivity |].
        intros page h r [Hin | []]. discriminate Hin.
Qed.

(* ================================================================= *)
(** ** Reports of nothing *)

Local Open Scope string_scope.

(** X17. A result job without grades and an attendance job without
    records still give a report: no rows, the totals 0 and 0.0, the SGPA
    and the overall percentage "0.00" (nothing is divided by zero); and
    with no grade entry to take a year from, the title is the fallback one
    whenever [semesterId] itself names no year. *)
Theorem reports_of_nothing (data : JobData) :
  (grades data = [] ->
   let doc := resultDocument data in
   res_rows doc = [] /\ res_totalCredits doc = "0" /\ res_earnedPoints doc = "0.0" /\
   res_sgpa doc = "0.00" /\
   (~ found year_re (semesterId data) -> res_title doc = fallbackTitle (semesterId data))) /\
  (records data = [] ->
   let doc := attendanceDocument data in
   att_rows doc = [] /\ att_overallPercent doc = "0.00" /\
   toFixed (att_totalAttended doc) 0 = "0" /\ toFixed (att_totalClasses doc) 0 = "0").
Proof.
  split.
  - intros Hg doc. subst doc. unfold resultDocument, sgpa. rewrite Hg. simpl.
    repeat split.
    intros Hny. apply titleText_no_year; [| discriminate].
    destruct (regex_match (semesterId data) year_re) as [yc |] eqn:Hy; [| reflexivity].
    destruct (regex_match_leftmost _ _ _ Hy) as (i & Hocc & _).
    destruct Hny. exists i, yc. exact Hocc.
  - intros Hr doc. subst doc. unfold attendanceDocument, overallPercent. rewrite Hr. simpl.
    repeat split.
Qed.
